(** * MeetXAccel frontend: client contracts and the availability cache they rely on

    The development embeds the pieces of the single-page application that
    carry behaviour of their own: the page-title lookup of the dashboard
    layout, the zod schemas of the availability and registration forms, the
    axios calls of [services/api.ts] and the interfaces of [types/api.ts].
    JavaScript values are modelled by the type [JS.value]; a JavaScript
    string is a Rocq [string] read as its sequence of code units. *)

From Stdlib Require Import String Ascii List Bool Arith ZArith QArith Lia.
From stdpp Require Import base decidable option gmap strings.
From Stdlib Require Import DecimalString DecimalNat.
Import ListNotations.

Set Warnings "-register-all".

Local Open Scope string_scope.
Local Open Scope list_scope.

(** ** JavaScript values *)

Module JS.

(** An IEEE double is NaN, an infinity or a (dyadic) rational; the
    comparisons below are those of [<] and [>] on such numbers. *)
Inductive number : Type :=
| NaN
| Inf (positive : bool)
| Fin (q : Q).

Definition of_Z (z : Z) : number := Fin (inject_Z z).

Definition lt (a b : number) : bool :=
  match a, b with
  | NaN, _ | _, NaN => false
  | Inf true, _ => false
  | Inf false, Inf false => false
  | Inf false, _ => true
  | Fin _, Inf p => p
  | Fin x, Fin y => negb (Qle_bool y x)
  end.

Definition gt (a b : number) : bool := lt b a.

Inductive value : Type :=
| VUndefined
| VNull
| VBool (b : bool)
| VNum (n : number)
| VStr (s : string)
| VArr (items : list value)
| VObj (fields : list (string * value))
| VInherited (name : string).
(** [VInherited k] is the member [k] that every object literal inherits from
    [Object.prototype] (a function, or the prototype itself for [__proto__]). *)

Definition truthy (v : value) : bool :=
  match v with
  | VUndefined | VNull => false
  | VBool b => b
  | VNum NaN => false
  | VNum (Inf _) => true
  | VNum (Fin q) => negb (Qeq_bool q 0)
  | VStr s => negb (s =? "")
  | VArr _ | VObj _ | VInherited _ => true
  end.

(** Own properties of an object literal, in insertion order. *)
Fixpoint own {A : Type} (fields : list (string * A)) (k : string) : option A :=
  match fields with
  | [] => None
  | (k', v) :: rest => if k' =? k then Some v else own rest k
  end.

Definition keys {A : Type} (fields : list (string * A)) : list string :=
  map fst fields.

(** The property names of [Object.prototype] (ECMAScript, with Annex B). *)
Definition Object_prototype : list string :=
  [ "constructor"; "__defineGetter__"; "__defineSetter__"; "hasOwnProperty";
    "__lookupGetter__"; "__lookupSetter__"; "isPrototypeOf";
    "propertyIsEnumerable"; "toString"; "valueOf"; "__proto__";
    "toLocaleString" ].

Definition inherited (k : string) : bool :=
  existsb (String.eqb k) Object_prototype.

(** [o[k]] on an object literal: own property, then the prototype. *)
Definition get (fields : list (string * value)) (k : string) : value :=
  match own fields k with
  | Some v => v
  | None => if inherited k then VInherited k else VUndefined
  end.

(** [v[k]] on any value that a form or a response may hold. *)
Definition field (v : value) (k : string) : value :=
  match v with
  | VObj fields => get fields k
  | _ => VUndefined
  end.

End JS.

Import JS.

(** ** components/layout/DashboardLayout.tsx *)

Module DashboardLayout.

Definition routes : list (string * string) :=
  [ ("/dashboard", "Dashboard");
    ("/dashboard/event-types", "Event Types");
    ("/dashboard/bookings", "Bookings");
    ("/dashboard/availability", "Availability");
    ("/dashboard/contacts", "Contacts");
    ("/dashboard/workflows", "Workflows");
    ("/dashboard/notifications", "Notifications");
    ("/dashboard/integrations", "Integrations");
    ("/dashboard/analytics", "Analytics");
    ("/dashboard/settings", "Settings") ].

Definition routes_object : list (string * value) :=
  map (fun rt => (fst rt, VStr (snd rt))) routes.

(** [pathname.startsWith(route)] *)
Definition startsWith (pathname route : string) : bool :=
  String.prefix route pathname.

(** The [for ... of Object.entries(routes)] loop with its early return. *)
Fixpoint partial_match (entries : list (string * string)) (pathname : string)
  : option string :=
  match entries with
  | [] => None
  | (route, title) :: rest =>
      if startsWith pathname route && negb (route =? "/dashboard")
      then Some title
      else partial_match rest pathname
  end.

Definition getPageTitle (pathname : string) : value :=
  if truthy (get routes_object pathname) then get routes_object pathname
  else match partial_match routes pathname with
       | Some title => VStr title
       | None => VStr "Dashboard"
       end.

End DashboardLayout.

(** ** zod (version 3): the schema combinators the forms use

    A schema maps a path and an input to a status, the parsed output and
    the issues raised.  An input of the wrong type aborts the parse of its
    schema; a failed check only marks it dirty, so later checks and
    enclosing refinements still run. *)

Module Zod.

Inductive status : Type := Valid | Dirty | Aborted.

Inductive code : Type :=
| invalid_type | too_small | too_big | invalid_string | custom.

(** The message given in the source, or the library's default one. *)
Inductive message : Type :=
| Message (text : string)
| DefaultMessage.

Record issue : Type := mkIssue {
  issue_code : code;
  issue_path : list string;
  issue_message : message
}.

Record result : Type := mkResult {
  res_status : status;
  res_output : value;
  res_issues : list issue
}.

Definition schema : Type := list string -> value -> result.

Definition INVALID (path : list string) (v : value) : result :=
  mkResult Aborted v [mkIssue invalid_type path DefaultMessage].

Definition checked (v : value) (issues : list issue) : result :=
  mkResult (match issues with [] => Valid | _ => Dirty end) v issues.

(** [safeParse(v).success]: the parse is valid, neither dirty nor aborted. *)
Definition success (s : schema) (v : value) : bool :=
  match res_status (s [] v) with Valid => true | _ => false end.

(** A result is valid exactly when it carries no issue. *)
Definition coherent (r : result) : Prop :=
  res_status r = Valid <-> res_issues r = [].

Definition well_behaved (s : schema) : Prop :=
  forall path v, coherent (s path v).

Inductive string_check : Type :=
| str_min (n : nat) (msg : message)
| str_email (regex : string -> bool) (msg : message).

Definition run_string_check (path : list string) (s : string)
  (c : string_check) : list issue :=
  match c with
  | str_min n msg =>
      if (String.length s <? n)%nat then [mkIssue too_small path msg] else []
  | str_email regex msg =>
      if regex s then [] else [mkIssue invalid_string path msg]
  end.

Definition z_string (checks : list string_check) : schema :=
  fun path v =>
    match v with
    | VStr s => checked v (flat_map (run_string_check path s) checks)
    | _ => INVALID path v
    end.

Inductive number_check : Type :=
| num_min (bound : number)
| num_max (bound : number).

Definition run_number_check (path : list string) (n : number)
  (c : number_check) : list issue :=
  match c with
  | num_min bound =>
      if JS.lt n bound then [mkIssue too_small path DefaultMessage] else []
  | num_max bound =>
      if JS.gt n bound then [mkIssue too_big path DefaultMessage] else []
  end.

(** [z.number()] takes NaN for a value of the wrong type. *)
Definition z_number (checks : list number_check) : schema :=
  fun path v =>
    match v with
    | VNum NaN => INVALID path v
    | VNum n => checked v (flat_map (run_number_check path n) checks)
    | _ => INVALID path v
    end.

Definition z_boolean : schema :=
  fun path v =>
    match v with
    | VBool _ => checked v []
    | _ => INVALID path v
    end.

Definition optional (inner : schema) : schema :=
  fun path v =>
    match v with
    | VUndefined => checked VUndefined []
    | _ => inner path v
    end.

(** [.refine(check, { message, path })]: skipped when the inner parse
    aborted, otherwise run on the inner output. *)
Definition refine (inner : schema) (check : value -> bool) (msg : message)
  (at_path : list string) : schema :=
  fun path v =>
    let r := inner path v in
    match res_status r with
    | Aborted => r
    | _ =>
        if check (res_output r) then r
        else mkResult Dirty (res_output r)
               (res_issues r ++ [mkIssue custom (path ++ at_path) msg])
    end.

Definition merge (a b : status) : status :=
  match a, b with
  | Aborted, _ | _, Aborted => Aborted
  | Dirty, _ | _, Dirty => Dirty
  | Valid, Valid => Valid
  end.

(** The keys of the shape are parsed in order; keys outside the shape are
    stripped; a key whose output is [undefined] and which the input lacks
    is left out of the output. *)
Fixpoint parse_shape (shape : list (string * schema)) (path : list string)
  (data : list (string * value))
  : status * list (string * value) * list issue :=
  match shape with
  | [] => (Valid, [], [])
  | (key, s) :: rest =>
      let r := s (path ++ [key]) (get data key) in
      let '(st, out, iss) := parse_shape rest path data in
      let present :=
        match res_output r with
        | VUndefined => match own data key with Some _ => true | None => false end
        | _ => true
        end in
      (merge (res_status r) st,
       (if present then (key, res_output r) :: out else out),
       res_issues r ++ iss)
  end.

Definition z_object (shape : list (string * schema)) : schema :=
  fun path v =>
    match v with
    | VObj data =>
        let '(st, out, iss) := parse_shape shape path data in
        mkResult st (VObj out) iss
    | _ => INVALID path v
    end.

End Zod.

Import Zod.

(** ** toasts and query-cache effects of the pages *)

Inductive effect : Type :=
| toast_success (text : string)
| toast_error (text : string)
| invalidateQueries (queryKey : list string)
| setShowRuleModal (open : bool)
| setEditingItem_null
| ruleForm_reset.

(** ** Own properties of values, as [Object.entries] and the spread see them *)

Module Objects.

(** [a === b] and [a >= b] on numbers. *)
Definition number_eq (a b : number) : bool :=
  match a, b with
  | Fin x, Fin y => Qeq_bool x y
  | Inf p, Inf q => Bool.eqb p q
  | _, _ => false
  end.

Definition number_ge (a b : number) : bool :=
  match a, b with
  | NaN, _ | _, NaN => false
  | _, _ => negb (JS.lt a b)
  end.

(** The key of the element at index [i]: its decimal numeral. *)
Definition index_key (i : nat) : string :=
  NilEmpty.string_of_uint (Nat.to_uint i).

Fixpoint indexed {A : Type} (i : nat) (l : list A) : list (string * A) :=
  match l with
  | [] => []
  | x :: rest => (index_key i, x) :: indexed (S i) rest
  end.

Fixpoint chars (s : string) : list value :=
  match s with
  | EmptyString => []
  | String c rest => VStr (String c EmptyString) :: chars rest
  end.

(** The members of an object literal, each key once: a later member with a
    key already seen is shadowed (see [JS.own]). *)
Fixpoint entries_from (seen : list string) (fields : list (string * value))
  : list (string * value) :=
  match fields with
  | [] => []
  | (k, v) :: rest =>
      if existsb (String.eqb k) seen then entries_from seen rest
      else (k, v) :: entries_from (k :: seen) rest
  end.

(** The own enumerable properties of a value: the members of an object,
    the elements of an array and the characters of a string under their
    indices, nothing for the other values.  They are listed in insertion
    order; JavaScript lists integer-like keys of an object first, a
    difference the functions below do not observe, since they only write
    each key into a map. *)
Definition own_entries (v : value) : list (string * value) :=
  match v with
  | VObj fields => entries_from [] fields
  | VArr items => indexed 0 items
  | VStr s => indexed 0 (chars s)
  | _ => []
  end.

(** [{ ...target, ...source }]: each property of the source is written
    over the target. *)
Definition spread (target : gmap string value) (source : value)
  : gmap string value :=
  foldl (fun m kv => <[fst kv := snd kv]> m) target (own_entries source).

(** [a?.k] *)
Definition optional_chain (a : value) (k : string) : value :=
  match a with
  | VUndefined | VNull => VUndefined
  | _ => field a k
  end.

End Objects.

(** ** services/api.ts *)

Module Api.

Inductive http_method : Type := GET | POST | PATCH | DELETE.

(** What a call hands to axios: [params] is the object given as
    [config.params], [data] the request body. *)
Record request : Type := mkRequest {
  req_method : http_method;
  req_url : string;
  req_params : list (string * value);
  req_data : option value
}.



Definition opt_number (n : option number) : value :=
  match n with
  | Some x => VNum x
  | None => VUndefined
  end.

(** An axios response; only [data] is read. *)
Record AxiosResponse : Type := mkResponse {
  response_status : nat;
  response_data : value
}.

Module publicApi.

(** [api.get(url, { params })]: the caller's [params] object, given by its
    members, goes to axios as it is. *)
Definition getAvailableSlots_request (organizerSlug eventTypeSlug : string)
  (params : list (string * value)) : request :=
  mkRequest GET
    ("/events/slots/" ++ organizerSlug ++ "/" ++ eventTypeSlug ++ "/")
    (Objects.entries_from [] params) None.

(** [return response.data] *)
Definition getAvailableSlots_result (response : AxiosResponse) : value :=
  response_data response.

End publicApi.

Module availabilityApi.

Definition createRule_request (data : value) : request :=
  mkRequest POST "/availability/rules/" [] (Some data).

Definition updateRule_request (id : string) (data : value) : request :=
  mkRequest PATCH ("/availability/rules/" ++ id ++ "/") [] (Some data).

Definition deleteRule_request (id : string) : request :=
  mkRequest DELETE ("/availability/rules/" ++ id ++ "/") [] None.

Definition updateBufferSettings_request (data : value) : request :=
  mkRequest PATCH "/availability/buffer/" [] (Some data).

Definition clearCache_request : request :=
  mkRequest POST "/availability/cache/clear/" [] None.

Definition precomputeCache_request (daysAhead : option number) : request :=
  mkRequest POST "/availability/cache/precompute/" []
    (Some (VObj [("days_ahead", opt_number daysAhead)])).

Definition precomputeCache_result (response : AxiosResponse) : value :=
  response_data response.

End availabilityApi.

End Api.

(** ** pages/availability/AvailabilityPage.tsx *)

Module AvailabilityPage.

Definition ruleSchema : schema :=
  z_object
    [ ("day_of_week", z_number [num_min (of_Z 0); num_max (of_Z 6)]);
      ("start_time", z_string [str_min 1 (Message "Start time is required")]);
      ("end_time", z_string [str_min 1 (Message "End time is required")]);
      ("is_active", z_boolean) ].

Definition bufferSchema : schema :=
  z_object
    [ ("default_buffer_before", z_number [num_min (of_Z 0); num_max (of_Z 120)]);
      ("default_buffer_after", z_number [num_min (of_Z 0); num_max (of_Z 120)]);
      ("minimum_gap", z_number [num_min (of_Z 0); num_max (of_Z 60)]);
      ("slot_interval_minutes", z_number [num_min (of_Z 5); num_max (of_Z 60)]) ].

(** A [useMutation] configuration: the request [mutationFn] issues for its
    argument and what [onSuccess] does. *)
Record mutation (A : Type) : Type := mkMutation {
  mutationFn : A -> Api.request;
  onSuccess : list effect
}.
Arguments mkMutation {A} _ _.
Arguments mutationFn {A} _ _.
Arguments onSuccess {A} _.

Definition createRuleMutation : mutation value :=
  mkMutation Api.availabilityApi.createRule_request
    [ toast_success "Availability rule created";
      setShowRuleModal false;
      ruleForm_reset;
      invalidateQueries ["availability-rules"] ].

Definition updateRuleMutation : mutation (string * value) :=
  mkMutation
    (fun arg => Api.availabilityApi.updateRule_request (fst arg) (snd arg))
    [ toast_success "Availability rule updated";
      setShowRuleModal false;
      setEditingItem_null;
      invalidateQueries ["availability-rules"] ].

Definition deleteRuleMutation : mutation string :=
  mkMutation Api.availabilityApi.deleteRule_request
    [ toast_success "Availability rule deleted";
      invalidateQueries ["availability-rules"] ].

Definition updateBufferMutation : mutation value :=
  mkMutation Api.availabilityApi.updateBufferSettings_request
    [ toast_success "Buffer settings updated";
      invalidateQueries ["buffer-settings"] ].

Definition clearCacheMutation : mutation unit :=
  mkMutation (fun _ => Api.availabilityApi.clearCache_request)
    [ toast_success "Cache cleared successfully" ].

Definition precomputeCacheMutation : mutation unit :=
  mkMutation
    (fun _ => Api.availabilityApi.precomputeCache_request (Some (of_Z 14)))
    [ toast_success "Cache precomputation started" ].

(** [bufferForm.handleSubmit(onBufferSubmit)]: the resolver parses the form
    values and [onBufferSubmit] sends the parsed data. *)
Definition submitBufferForm (values : value) : option Api.request :=
  let r := bufferSchema [] values in
  match res_status r with
  | Valid => Some (mutationFn updateBufferMutation (res_output r))
  | _ => None
  end.

End AvailabilityPage.

(** ** pages/auth/RegisterPage.tsx *)

Module RegisterPage.

Section Schema.

(** The regular expression behind [z.string().email()]. *)
Variable emailRegex : string -> bool.

Definition is_true (v : value) : bool :=
  match v with
  | VBool true => true
  | _ => false
  end.

(** [a === b] for the strings the refinement compares. *)
Definition strict_equal (a b : value) : bool :=
  match a, b with
  | VStr x, VStr y => x =? y
  | VUndefined, VUndefined => true
  | _, _ => false
  end.

Definition schema : Zod.schema :=
  refine
    (z_object
       [ ("first_name", z_string [str_min 1 (Message "First name is required")]);
         ("last_name", optional (z_string []));
         ("username", optional (z_string []));
         ("email",
           z_string [str_email emailRegex
                       (Message "Please enter a valid email address")]);
         ("password",
           z_string [str_min 8 (Message "Password must be at least 8 characters")]);
         ("password_confirm", z_string []);
         ("terms_accepted",
           refine z_boolean is_true
             (Message "You must accept the terms and conditions") []) ])
    (fun data => strict_equal (field data "password")
                              (field data "password_confirm"))
    (Message "Passwords don't match")
    ["password_confirm"].

(** The values react-hook-form collects ([FormData]): text inputs give
    strings, the checkbox a boolean; the two optional names may be left
    undefined. *)
Record FormValues : Type := mkForm {
  first_name : string;
  last_name : option string;
  username : option string;
  email : string;
  password : string;
  password_confirm : string;
  terms_accepted : bool
}.

Definition opt_string (s : option string) : value :=
  match s with
  | Some x => VStr x
  | None => VUndefined
  end.

Definition form_object (f : FormValues) : value :=
  VObj [ ("first_name", VStr (first_name f));
         ("last_name", opt_string (last_name f));
         ("username", opt_string (username f));
         ("email", VStr (email f));
         ("password", VStr (password f));
         ("password_confirm", VStr (password_confirm f));
         ("terms_accepted", VBool (terms_accepted f)) ].

End Schema.

Definition passwords_issue : issue :=
  mkIssue custom ["password_confirm"] (Message "Passwords don't match").

Definition sample_form : FormValues :=
  mkForm "Ada" None None "ada@example.com" "correct horse" "correct hors" true.

End RegisterPage.

(** ** types/api.ts

    An interface is the list of its members, each with its optional mark
    and its type; [has_type] is the structural check that a value of the
    wire has the declared shape. *)

Module Types.

Inductive ty : Type :=
| TString
| TNumber
| TBoolean
| TLiteral (alternatives : list string)
| TArray (elem : ty)
| TDict (elem : ty)
| TInterface (members : list (string * (bool * ty))).

Definition required (t : ty) : bool * ty := (false, t).
Definition optional (t : ty) : bool * ty := (true, t).

Definition member_ok (fields : list (string * value)) (k : string)
  (opt : bool) (check : value -> bool) : bool :=
  match own fields k with
  | None | Some VUndefined => opt
  | Some v => check v
  end.

Fixpoint has_type (t : ty) (v : value) {struct t} : bool :=
  match t with
  | TString => match v with VStr _ => true | _ => false end
  | TNumber => match v with VNum _ => true | _ => false end
  | TBoolean => match v with VBool _ => true | _ => false end
  | TLiteral alternatives =>
      match v with
      | VStr s => existsb (String.eqb s) alternatives
      | _ => false
      end
  | TArray elem =>
      match v with
      | VArr items => forallb (has_type elem) items
      | _ => false
      end
  | TDict elem =>
      match v with
      | VObj fields => forallb (fun kv => has_type elem (snd kv)) fields
      | _ => false
      end
  | TInterface members =>
      match v with
      | VObj fields =>
          (fix all_members (ms : list (string * (bool * ty))) : bool :=
             match ms with
             | [] => true
             | (k, (opt, t')) :: rest =>
                 member_ok fields k opt (has_type t') && all_members rest
             end) members
      | _ => false
      end
  end.

Definition member_names (t : ty) : list string :=
  match t with
  | TInterface members => map fst members
  | _ => []
  end.

Definition member (t : ty) (k : string) : option (bool * ty) :=
  match t with
  | TInterface members => own members k
  | _ => None
  end.

Definition BlockedTime : ty :=
  TInterface
    [ ("id", required TString);
      ("start_datetime", required TString);
      ("end_datetime", required TString);
      ("reason", required TString);
      ("source",
        required (TLiteral [ "manual"; "google_calendar"; "outlook_calendar";
                             "apple_calendar"; "external_sync" ]));
      ("source_display", required TString);
      ("external_id", required TString);
      ("external_updated_at", optional TString);
      ("is_active", required TBoolean);
      ("created_at", required TString);
      ("updated_at", required TString) ].

Definition BufferTime : ty :=
  TInterface
    [ ("default_buffer_before", required TNumber);
      ("default_buffer_after", required TNumber);
      ("minimum_gap", required TNumber);
      ("slot_interval_minutes", required TNumber);
      ("created_at", required TString);
      ("updated_at", required TString) ].

Definition AvailableSlot : ty :=
  TInterface
    [ ("start_time", required TString);
      ("end_time", required TString);
      ("duration_minutes", required TNumber);
      ("local_start_time", optional TString);
      ("local_end_time", optional TString);
      ("available_spots", optional TNumber);
      ("invitee_times",
        optional (TDict (TInterface
                           [ ("start_time", required TString);
                             ("end_time", required TString);
                             ("start_hour", required TNumber);
                             ("end_hour", required TNumber) ])));
      ("fairness_score", optional TNumber) ].

Definition AvailabilityResponse : ty :=
  TInterface
    [ ("organizer_slug", required TString);
      ("event_type_slug", required TString);
      ("start_date", required TString);
      ("end_date", required TString);
      ("invitee_timezone", required TString);
      ("attendee_count", required TNumber);
      ("available_slots", required (TArray AvailableSlot));
      ("cache_hit", required TBoolean);
      ("total_slots", required TNumber);
      ("computation_time_ms", required TNumber);
      ("multi_invitee_mode", optional TBoolean);
      ("invitee_timezones", optional (TArray TString)) ].

(** [delete o[k]] for each [k] of a list of keys. *)
Definition without (v : value) (ks : list string) : value :=
  match v with
  | VObj fields =>
      VObj (List.filter (fun kv => negb (existsb (String.eqb (fst kv)) ks)) fields)
  | _ => v
  end.

End Types.

(** ** services/api.ts: the type declared for the params of
    [publicApi.getAvailableSlots] *)

Module ApiParams.
Import Types.


End ApiParams.

(** ** components/layout/DashboardLayout.tsx: the sidebar *)

Module Sidebar.

(** An entry of the sidebar; its icon is a component and is left out. *)
Record nav_item : Type := mkNav {
  name : string;
  href : string
}.

Definition navigation : list nav_item :=
  [ mkNav "Dashboard" "/dashboard";
    mkNav "Event Types" "/dashboard/event-types";
    mkNav "Bookings" "/dashboard/bookings";
    mkNav "Availability" "/dashboard/availability";
    mkNav "Contacts" "/dashboard/contacts";
    mkNav "Workflows" "/dashboard/workflows";
    mkNav "Notifications" "/dashboard/notifications";
    mkNav "Integrations" "/dashboard/integrations";
    mkNav "Analytics" "/dashboard/analytics";
    mkNav "Settings" "/dashboard/settings" ].

Definition isActive (pathname : string) (item : nav_item) : bool :=
  (pathname =? href item)
  || (negb (href item =? "/dashboard")
      && DashboardLayout.startsWith pathname (href item)).

End Sidebar.

(** ** pages/availability/AvailabilityPage.tsx: the other forms *)

Module AvailabilityForms.
Import AvailabilityPage.

Definition overrideSchema : schema :=
  z_object
    [ ("date", z_string [str_min 1 (Message "Date is required")]);
      ("is_available", z_boolean);
      ("start_time", Zod.optional (z_string []));
      ("end_time", Zod.optional (z_string []));
      ("reason", Zod.optional (z_string []));
      ("is_active", z_boolean) ].

Definition blockedTimeSchema : schema :=
  z_object
    [ ("start_datetime", z_string [str_min 1 (Message "Start time is required")]);
      ("end_datetime", z_string [str_min 1 (Message "End time is required")]);
      ("reason", Zod.optional (z_string []));
      ("is_active", z_boolean) ].

Definition recurringBlockSchema : schema :=
  z_object
    [ ("name", z_string [str_min 1 (Message "Name is required")]);
      ("day_of_week", z_number [num_min (of_Z 0); num_max (of_Z 6)]);
      ("start_time", z_string [str_min 1 (Message "Start time is required")]);
      ("end_time", z_string [str_min 1 (Message "End time is required")]);
      ("start_date", Zod.optional (z_string []));
      ("end_date", Zod.optional (z_string []));
      ("is_active", z_boolean) ].

(** What an optional string member may hold. *)
Definition string_or_undefined (v : value) : Prop :=
  v = VUndefined \/ exists s, v = VStr s.

(** The values of the rule form, as [RuleFormData] types them. *)
Record RuleFormData : Type := mkRule {
  day_of_week : number;
  start_time : string;
  end_time : string;
  is_active : bool
}.

Definition rule_object (r : RuleFormData) : value :=
  VObj [ ("day_of_week", VNum (day_of_week r));
         ("start_time", VStr (start_time r));
         ("end_time", VStr (end_time r));
         ("is_active", VBool (is_active r)) ].

Section RuleSubmit.

(** The string that a template literal makes of a value (the conversion
    ToString of the language), [None] when the conversion throws. *)
Variable ToString : value -> option string.

(** [onRuleSubmit]: with an item being edited the rule is updated under
    [`/availability/rules/${editingItem.id}/`], whatever the id is;
    otherwise a rule is created. *)
Definition onRuleSubmit (editingItem data : value) : option Api.request :=
  if truthy editingItem then
    match ToString (field editingItem "id") with
    | Some id => Some (mutationFn updateRuleMutation (id, data))
    | None => None
    end
  else Some (mutationFn createRuleMutation data).

(** [ruleForm.handleSubmit(onRuleSubmit)]: the resolver parses the form
    values and [onRuleSubmit] gets the parsed data. *)
Definition submitRuleForm (editingItem values : value) : option Api.request :=
  let r := ruleSchema [] values in
  match res_status r with
  | Valid => onRuleSubmit editingItem (res_output r)
  | _ => None
  end.

End RuleSubmit.

(** The conversion on the values whose string is plain to write down: a
    string is itself, a natural number its decimal numeral, [undefined],
    [null] and the booleans their names.  The other values are left out. *)
Definition ToString_sample (v : value) : option string :=
  match v with
  | VStr s => Some s
  | VUndefined => Some "undefined"
  | VNull => Some "null"
  | VBool true => Some "true"
  | VBool false => Some "false"
  | VNum (Fin q) =>
      match Qnum q, Qden q with
      | Z0, _ => Some "0"
      | Zpos n, 1%positive => Some (Objects.index_key (Pos.to_nat n))
      | _, _ => None
      end
  | _ => None
  end.

End AvailabilityForms.

(** ** services/api.ts: interceptors and the calls that build their URL or
    body themselves *)

Module ApiMore.
Import Api Objects.

Inductive interceptor_effect : Type :=
| logout
| toast_error (text : string)
| set_location (href : string).

(** The token of the auth store: a string, or null. *)
Definition request_interceptor (token : option string)
  (headers : gmap string string) : gmap string string :=
  match token with
  | Some t =>
      if truthy (VStr t) then <["Authorization" := ("Token " ++ t)%string]> headers
      else headers
  | None => headers
  end.

(** An error as the response interceptor reads it:
    [error.response?.status], undefined when there is no response. *)
Inductive settled (A : Type) : Type :=
| Resolved (x : A)
| Rejected (x : A).
Arguments Resolved {A} _.
Arguments Rejected {A} _.

Record axios_error : Type := mkError {
  error_status : option number;
  error_payload : value
}.

Definition response_error_interceptor (error : axios_error)
  : list interceptor_effect * settled axios_error :=
  let effects :=
    match error_status error with
    | Some status =>
        if number_eq status (of_Z 401) then
          [ logout;
            toast_error "Session expired. Please log in again.";
            set_location "/login" ]
        else if number_ge status (of_Z 500) then
          [ toast_error "Server error. Please try again later." ]
        else []
    | None => []
    end in
  (effects, Rejected error).

(** [publicApi.manageBooking]: the body is [{ action, ...data }]. *)
Definition manageBooking_url (accessToken : string) : string :=
  ("/events/booking/" ++ accessToken ++ "/manage/")%string.

Definition manageBooking_body (action : string) (data : value)
  : gmap string value :=
  spread {["action" := VStr action]} data.

(** [contactsApi.getInteractions] *)
Definition getInteractions_request (contactId : option string) : request :=
  let collection := "/contacts/interactions/" in
  let url :=
    match contactId with
    | Some id =>
        if truthy (VStr id) then ("/contacts/" ++ id ++ "/interactions/")%string
        else collection
    | None => collection
    end in
  mkRequest GET url [] None.

(** A string without a slash. *)
Fixpoint no_slash (s : string) : bool :=
  match s with
  | EmptyString => true
  | String c rest => negb (Ascii.eqb c "/") && no_slash rest
  end.

End ApiMore.

(** ** pages/auth/RegisterPage.tsx: the error handler of the mutation *)

Module RegisterErrors.
Import Objects.

Definition first_message (messages : value) : option value :=
  match messages with
  | VArr (m :: _) => Some m
  | _ => None
  end.

(** [onError]: the message toasted and the calls of [form.setError], as
    the map from the field named to the message set; [None] when reading
    [error.response] throws because the error is null or undefined. *)
Definition onError (error : value) : option (value * gmap string value) :=
  match error with
  | VUndefined | VNull => None
  | _ =>
      let data := optional_chain (field error "response") "data" in
      let server_message := optional_chain data "error" in
      let message :=
        if truthy server_message then server_message
        else VStr "Registration failed" in
      let errors := optional_chain data "errors" in
      let calls :=
        if truthy errors then
          foldl (fun acc kv =>
                   match first_message (snd kv) with
                   | Some m => <[fst kv := m]> acc
                   | None => acc
                   end) ∅ (own_entries errors)
        else ∅ in
      Some (message, calls)
  end.

End RegisterErrors.

(** ** The availability cache layer (server side)

    The client only calls the cache ([getAvailableSlots], [clearCache],
    [precomputeCache]); the layer itself is given by the specification of
    the availability engine, whose words the definitions below follow. *)

Module CacheLayer.

Local Open Scope nat_scope.

(** Modelled from the spec: the cache key; the implementation of the cache
    layer is missing from the sources.  "a read-through cache keyed by
    (organizer_id, event_type_id, date_window, timezone)". *)
Record key : Type := mkKey {
  organizer_id : nat;
  event_type_id : nat;
  date_window : nat * nat;
  key_timezone : string
}.

#[global] Instance key_eq_dec : EqDecision key.
Proof. solve_decision. Defined.

#[global] Instance key_countable : Countable key.
Proof.
  refine (inj_countable'
            (fun k => (organizer_id k, event_type_id k, date_window k, key_timezone k))
            (fun t => let '(o, e, d, z) := t in mkKey o e d z) _).
  by intros [].
Defined.

(** A small instance on which the engine can be run: a rule set is a list
    of opening hours, a slot an hour of the day. *)
Definition sample_compute (hours : list nat) (k : key) : list nat :=
  map (fun h => h + event_type_id k) hours.

Definition sample_event_types (o : nat) : list nat := [7].

Definition sample_next_days (days_ahead : nat) : list (nat * nat) :=
  map (fun d => (d, d)) (seq 0 days_ahead).

Definition sample_key : key := mkKey 1 7 (1, 1) "UTC".

Section Engine.

Context {rule_set slot : Type}.

(** The cold computation (interval resolver, then slot generator) for the
    rules of the key's organizer; what it takes from outside the rule
    store (bookings, the current time) is held fixed. *)
Variable compute : rule_set -> key -> list slot.
(** The rule set of an organizer who has not configured anything. *)
Variable no_rules : rule_set.
Variable active_event_types : nat -> list nat.
Variable common_timezones : list string.
(** The date windows of the next [days_ahead] days. *)
Variable next_days : nat -> list (nat * nat).

(** Modelled from the spec: the versioned aggregate, missing from the
    sources.  "model as an explicit versioned aggregate (rule set +
    generation counter)". *)
Record aggregate : Type := mkAggregate {
  rules : rule_set;
  generation : nat
}.

(** Modelled from the spec: the cache entry, missing from the sources.
    "value = ordered sequence of AvailableSlot; has a generation/version
    stamp for invalidation".  [computed_at] is a ghost field: the time at
    which the rules the slots were computed from were read. *)
Record entry : Type := mkEntry {
  stamp : nat;
  slots : list slot;
  computed_at : nat
}.

(** Modelled from the spec: a background precompute job, missing from the
    sources, with the snapshot it took when it was scheduled ("all reads
    take a generation snapshot"). *)
Record job : Type := mkJob {
  job_rules : rule_set;
  job_generation : nat;
  job_snapshot_at : nat;
  job_keys : list key
}.

(** Modelled from the spec: the state of the engine, missing from the
    sources: rule store, cache entries, the per-organizer in-flight marker
    of precompute jobs, and a ghost clock counting the operations. *)
Record engine : Type := mkEngine {
  store : gmap nat aggregate;
  cache : gmap key entry;
  in_flight : gmap nat job;
  clock : nat
}.

(** The engine before anything has happened. *)
Definition empty_engine : engine := mkEngine ∅ ∅ ∅ 0.

Definition aggregate_of (st : engine) (o : nat) : aggregate :=
  default (mkAggregate no_rules 0) (store st !! o).

Definition current_rules (st : engine) (o : nat) : rule_set :=
  rules (aggregate_of st o).

Definition current_generation (st : engine) (o : nat) : nat :=
  generation (aggregate_of st o).

Definition set_aggregate (st : engine) (o : nat) (a : aggregate) : engine :=
  mkEngine (<[o := a]> (store st)) (cache st) (in_flight st) (clock st).

(** Modelled from the spec: [invalidate], missing from the sources.
    "bumps the generation stamp, causing all existing entries for that
    organizer to be treated as stale on next read (lazy eviction, not
    immediate purge)". *)
Definition invalidate (st : engine) (o : nat) : engine :=
  set_aggregate st o
    (mkAggregate (current_rules st o) (S (current_generation st o))).

(** Modelled from the spec: a rule mutation, missing from the sources.
    "Rule mutations (create/update/delete of any rule entity) must
    invalidate affected cache entries before acknowledging the mutation's
    success". *)
Definition mutate (st : engine) (o : nat) (change : rule_set -> rule_set)
  : engine :=
  invalidate
    (set_aggregate st o
       (mkAggregate (change (current_rules st o)) (current_generation st o)))
    o.

(** Modelled from the spec: the part of the response the cache decides,
    missing from the sources.  "returns cached slots and a cache_hit
    flag". *)
Record slot_response : Type := mkSlotResponse {
  available_slots : list slot;
  cache_hit : bool
}.

(** Modelled from the spec: the staleness test, missing from the sources.
    "generation stamp matches current rule generation for that
    organizer". *)
Definition fresh (st : engine) (k : key) (e : entry) : bool :=
  Nat.eqb (stamp e) (current_generation st (organizer_id k)).

(** Modelled from the spec: [get], missing from the sources.  "returns
    cached slots and a cache_hit flag if the entry exists and is not stale
    (generation stamp matches current rule generation for that organizer)";
    a stale or missing entry "resolves by recomputation". *)
Definition get (st : engine) (k : key) : slot_response * engine :=
  let recompute :=
    let s := compute (current_rules st (organizer_id k)) k in
    (mkSlotResponse s false,
     mkEngine (store st)
       (<[k := mkEntry (current_generation st (organizer_id k)) s (clock st)]>
          (cache st))
       (in_flight st) (clock st)) in
  match cache st !! k with
  | Some e => if fresh st k e then (mkSlotResponse (slots e) true, st)
              else recompute
  | None => recompute
  end.

(** Modelled from the spec: the keys a precompute fills, missing from the
    sources.  "entries for the next N days across the organizer's active
    event types and common timezones". *)
Definition precompute_keys (o days_ahead : nat) : list key :=
  flat_map (fun w =>
    flat_map (fun et =>
      map (fun tz => mkKey o et w tz) common_timezones)
      (active_event_types o))
    (next_days days_ahead).

(** Modelled from the spec: scheduling of [precompute], missing from the
    sources.  "must not block the requesting call beyond scheduling it";
    "multiple precompute requests for the same organizer must coalesce (at
    most one in-flight precompute per organizer)". *)
Definition precompute (st : engine) (o days_ahead : nat) : engine :=
  match in_flight st !! o with
  | Some _ => st
  | None =>
      mkEngine (store st) (cache st)
        (<[o := mkJob (current_rules st o) (current_generation st o)
                  (clock st) (precompute_keys o days_ahead)]> (in_flight st))
        (clock st)
  end.

(** Modelled from the spec: what a job stores, missing from the sources:
    for each of its keys the slots computed from its snapshot, stamped with
    the generation of the snapshot. *)
Definition store_entries (j : job) (c : gmap key entry) : gmap key entry :=
  foldr (fun k acc =>
           <[k := mkEntry (job_generation j) (compute (job_rules j) k)
                    (job_snapshot_at j)]> acc)
        c (job_keys j).

(** Modelled from the spec: the background job of [precompute], missing
    from the sources.  "eagerly computes and stores entries". *)
Definition run_job (st : engine) (o : nat) : engine :=
  match in_flight st !! o with
  | Some j =>
      mkEngine (store st) (store_entries j (cache st))
        (delete o (in_flight st)) (clock st)
  | None => st
  end.

(** Modelled from the spec: the expiry of an entry after its time to
    live, missing from the sources; the entry is dropped. *)
Definition expire (st : engine) (k : key) : engine :=
  mkEngine (store st) (delete k (cache st)) (in_flight st) (clock st).

(** Modelled from the spec: the operations on the engine, missing from
    the sources: rule mutations, "cache/clear", slot queries,
    "cache/precompute", the completion of a background job, and the
    expiry of an entry ("recomputed on rule mutation or TTL expiry"). *)
Inductive op : Type :=
| Mutate (o : nat) (change : rule_set -> rule_set)
| Invalidate (o : nat)
| Get (k : key)
| Precompute (o days_ahead : nat)
| RunJob (o : nat)
| Expire (k : key).

(** Modelled from the spec: what the caller gets back, missing from the
    sources; a precompute is answered by "a started acknowledgment, not a
    completion guarantee". *)
Inductive reply : Type :=
| Acknowledged
| Slots (r : slot_response)
| Started.

(** The ghost clock advances with every operation. *)
Definition tick (st : engine) : engine :=
  mkEngine (store st) (cache st) (in_flight st) (S (clock st)).

(** Modelled from the spec: one operation, executed atomically; the
    interleavings of queries, mutations and background jobs are the lists
    of operations. *)
Definition step (st : engine) (x : op) : engine * reply :=
  match x with
  | Mutate o change => (tick (mutate st o change), Acknowledged)
  | Invalidate o => (tick (invalidate st o), Acknowledged)
  | Get k => let '(r, st') := get st k in (tick st', Slots r)
  | Precompute o n => (tick (precompute st o n), Started)
  | RunJob o => (tick (run_job st o), Acknowledged)
  | Expire k => (tick (expire st k), Acknowledged)
  end.

Definition run (st : engine) (ops : list op) : engine :=
  fold_left (fun s x => fst (step s x)) ops st.


(** *** Invariants of the engine *)

(** No entry is stamped ahead of its organizer's generation, and an entry
    stamped with the current generation holds the cold computation. *)
Definition entries_sound (st : engine) : Prop :=
  ∀ k e, cache st !! k = Some e →
    stamp e ≤ current_generation st (organizer_id k) ∧
    (stamp e = current_generation st (organizer_id k) →
     slots e = compute (current_rules st (organizer_id k)) k).

(** The snapshot of a job in flight is not ahead of the rule store, is the
    current rule set whenever its generation still is the current one, and
    the job only writes keys of its own organizer. *)
Definition jobs_sound (st : engine) : Prop :=
  ∀ o j, in_flight st !! o = Some j →
    job_generation j ≤ current_generation st o ∧
    (job_generation j = current_generation st o →
     job_rules j = current_rules st o) ∧
    (∀ k, In k (job_keys j) → organizer_id k = o).

Definition sound (st : engine) : Prop := entries_sound st ∧ jobs_sound st.

(** What is fresh for organizer [o] was read from the rule store after
    time [T]. *)
Definition read_after (T o : nat) (st : engine) : Prop :=
  (∀ k e, organizer_id k = o → cache st !! k = Some e →
     stamp e = current_generation st o → T < computed_at e) ∧
  (∀ j, in_flight st !! o = Some j →
     job_generation j = current_generation st o → T < job_snapshot_at j) ∧
  T < clock st.

Lemma generation_set_aggregate st o a o' :
  current_generation (set_aggregate st o a) o' =
  if decide (o = o') then generation a else current_generation st o'.
Proof.
  unfold current_generation, aggregate_of, set_aggregate; simpl.
  destruct (decide (o = o')) as [->|Hne].
  - by rewrite lookup_insert_eq.
  - by rewrite lookup_insert_ne.
Qed.

Lemma rules_set_aggregate st o a o' :
  current_rules (set_aggregate st o a) o' =
  if decide (o = o') then rules a else current_rules st o'.
Proof.
  unfold current_rules, aggregate_of, set_aggregate; simpl.
  destruct (decide (o = o')) as [->|Hne].
  - by rewrite lookup_insert_eq.
  - by rewrite lookup_insert_ne.
Qed.

Lemma generation_invalidate st o o' :
  current_generation (invalidate st o) o' =
  if decide (o = o') then S (current_generation st o)
  else current_generation st o'.
Proof. unfold invalidate. by rewrite generation_set_aggregate. Qed.

Lemma rules_invalidate st o o' :
  current_rules (invalidate st o) o' = current_rules st o'.
Proof.
  unfold invalidate. rewrite rules_set_aggregate.
  by destruct (decide (o = o')) as [->|].
Qed.

Lemma generation_mutate st o change o' :
  current_generation (mutate st o change) o' =
  if decide (o = o') then S (current_generation st o)
  else current_generation st o'.
Proof.
  unfold mutate. rewrite generation_invalidate, !generation_set_aggregate.
  destruct (decide (o = o')); [|done].
  by destruct (decide (o = o)).
Qed.

Lemma rules_mutate st o change o' :
  current_rules (mutate st o change) o' =
  if decide (o = o') then change (current_rules st o)
  else current_rules st o'.
Proof. unfold mutate. by rewrite rules_invalidate, rules_set_aggregate. Qed.

Lemma store_entries_in j c k :
  In k (job_keys j) →
  store_entries j c !! k =
  Some (mkEntry (job_generation j) (compute (job_rules j) k) (job_snapshot_at j)).
Proof.
  unfold store_entries. induction (job_keys j) as [|k' ks IH]; simpl; [done|].
  intros [->|Hin].
  - by rewrite lookup_insert_eq.
  - destruct (decide (k' = k)) as [->|Hne].
    + by rewrite lookup_insert_eq.
    + rewrite lookup_insert_ne by done. by apply IH.
Qed.

Lemma store_entries_out j c k :
  ¬ In k (job_keys j) → store_entries j c !! k = c !! k.
Proof.
  unfold store_entries. induction (job_keys j) as [|k' ks IH]; simpl; [done|].
  intros Hout. rewrite lookup_insert_ne by (intros ->; apply Hout; by left).
  apply IH. intros Hin. apply Hout. by right.
Qed.

Lemma store_entries_lookup j c k e :
  store_entries j c !! k = Some e →
  (In k (job_keys j) ∧
   e = mkEntry (job_generation j) (compute (job_rules j) k) (job_snapshot_at j))
  ∨ (¬ In k (job_keys j) ∧ c !! k = Some e).
Proof.
  intros He. destruct (in_dec key_eq_dec k (job_keys j)) as [Hin|Hout].
  - left. split; [done|]. rewrite store_entries_in in He by done. congruence.
  - right. split; [done|]. by rewrite store_entries_out in He.
Qed.

Lemma precompute_keys_organizer o n k :
  In k (precompute_keys o n) → organizer_id k = o.
Proof.
  unfold precompute_keys. rewrite in_flat_map. intros (w & _ & Hk).
  rewrite in_flat_map in Hk. destruct Hk as (et & _ & Hk).
  rewrite in_map_iff in Hk. by destruct Hk as (tz & <- & _).
Qed.

Lemma sound_empty : sound empty_engine.
Proof. split; intros ? ? H; simpl in H; by rewrite lookup_empty in H. Qed.

Lemma sound_bump st o a :
  sound st →
  generation a = S (current_generation st o) →
  sound (set_aggregate st o a).
Proof.
  intros [He Hj] Hgen. split.
  - intros k e Hk. simpl in Hk. destruct (He k e Hk) as [Hle Hfresh].
    rewrite generation_set_aggregate, rules_set_aggregate.
    destruct (decide (o = organizer_id k)) as [->|Hne]; [|done].
    split; lia.
  - intros o' j Ho'. simpl in Ho'. destruct (Hj o' j Ho') as (Hle & Hsame & Hkeys).
    rewrite generation_set_aggregate, rules_set_aggregate.
    destruct (decide (o = o')) as [->|Hne]; [|done].
    repeat split; [lia|lia|done].
Qed.

Lemma sound_invalidate st o : sound st → sound (invalidate st o).
Proof. intros H. by apply sound_bump. Qed.

Lemma mutate_eq st o change :
  mutate st o change =
  set_aggregate st o
    (mkAggregate (change (current_rules st o)) (S (current_generation st o))).
Proof.
  unfold mutate, invalidate.
  rewrite generation_set_aggregate, rules_set_aggregate.
  destruct (decide (o = o)); [simpl|done].
  unfold set_aggregate; simpl. by rewrite insert_insert_eq.
Qed.

Lemma sound_mutate st o change : sound st → sound (mutate st o change).
Proof. intros H. rewrite mutate_eq. by apply sound_bump. Qed.

Lemma get_slots st k :
  sound st →
  available_slots (fst (get st k)) =
  compute (current_rules st (organizer_id k)) k.
Proof.
  intros [He _]. unfold get.
  destruct (cache st !! k) as [e|] eqn:Hk; [|done].
  unfold fresh. destruct (Nat.eqb_spec (stamp e) (current_generation st (organizer_id k)))
    as [Heq|Hne]; [|done].
  simpl. by apply (He k e Hk).
Qed.

Lemma sound_get st k : sound st → sound (snd (get st k)).
Proof.
  intros [He Hj]. unfold get.
  destruct (cache st !! k) as [e|] eqn:Hk.
  - unfold fresh.
    destruct (Nat.eqb_spec (stamp e) (current_generation st (organizer_id k)));
      [done|].
    split; [|done]. intros k' e' Hk'. simpl in Hk'.
    destruct (decide (k = k')) as [->|Hne].
    + rewrite lookup_insert_eq in Hk'. by inversion Hk'.
    + rewrite lookup_insert_ne in Hk' by done. by apply He.
  - split; [|done]. intros k' e' Hk'. simpl in Hk'.
    destruct (decide (k = k')) as [->|Hne].
    + rewrite lookup_insert_eq in Hk'. by inversion Hk'.
    + rewrite lookup_insert_ne in Hk' by done. by apply He.
Qed.

Lemma sound_precompute st o n : sound st → sound (precompute st o n).
Proof.
  intros [He Hj]. unfold precompute.
  destruct (in_flight st !! o) eqn:Ho; [done|].
  split; [done|]. intros o' j Ho'. simpl in Ho'.
  destruct (decide (o = o')) as [->|Hne].
  - rewrite lookup_insert_eq in Ho'. inversion Ho'; subst; simpl.
    repeat split; [done|]. apply precompute_keys_organizer.
  - rewrite lookup_insert_ne in Ho' by done. by apply Hj.
Qed.

Lemma sound_run_job st o : sound st → sound (run_job st o).
Proof.
  intros [He Hj]. unfold run_job.
  destruct (in_flight st !! o) as [j|] eqn:Ho; [|done].
  destruct (Hj o j Ho) as (Hle & Hsame & Hkeys). split.
  - intros k e Hk. simpl in Hk.
    apply store_entries_lookup in Hk as [[Hin ->]|[_ Hk]]; [|by apply He].
    simpl. rewrite (Hkeys k Hin). split; [done|].
    intros Heq. by rewrite Hsame.
  - intros o' j' Ho'. simpl in Ho'.
    destruct (decide (o = o')) as [->|Hne].
    + by rewrite lookup_delete_eq in Ho'.
    + rewrite lookup_delete_ne in Ho' by done. by apply Hj.
Qed.

Lemma sound_expire st k : sound st → sound (expire st k).
Proof.
  intros [He Hj]. split; [|done]. intros k' e Hk'. simpl in Hk'.
  destruct (decide (k = k')) as [->|Hne].
  - by rewrite lookup_delete_eq in Hk'.
  - rewrite lookup_delete_ne in Hk' by done. by apply He.
Qed.

Lemma sound_tick st : sound st → sound (tick st).
Proof. done. Qed.

Lemma sound_step st x : sound st → sound (fst (step st x)).
Proof.
  intros H. destruct x as [o change|o|k|o n|o|k]; simpl.
  - by apply sound_tick, sound_mutate.
  - by apply sound_tick, sound_invalidate.
  - pose proof (sound_get st k H) as Hg. destruct (get st k) as [r st']. done.
  - by apply sound_tick, sound_precompute.
  - by apply sound_tick, sound_run_job.
  - by apply sound_tick, sound_expire.
Qed.

Lemma sound_run st ops : sound st → sound (run st ops).
Proof.
  revert st. induction ops as [|x ops IH]; intros st H; [done|].
  simpl. apply IH. by apply sound_step.
Qed.

Lemma run_app st ops1 ops2 : run st (ops1 ++ ops2) = run (run st ops1) ops2.
Proof. unfold run. apply fold_left_app. Qed.

Lemma read_after_bump T o st o' a :
  sound st → read_after T o st →
  generation a = S (current_generation st o') →
  read_after T o (tick (set_aggregate st o' a)).
Proof.
  intros [He Hj] (J1 & J2 & J3) Hgen. unfold read_after, tick.
  change (current_generation (mkEngine _ _ _ _) o)
    with (current_generation (set_aggregate st o' a) o).
  repeat split.
  - intros k e Hk Hlook. simpl in Hlook. rewrite generation_set_aggregate.
    destruct (decide (o' = o)) as [->|Hne]; [|by apply (J1 k e)].
    intros Hst. destruct (He k e Hlook) as [Hle _]. rewrite Hk in Hle. lia.
  - intros j Hlook. simpl in Hlook. rewrite generation_set_aggregate.
    destruct (decide (o' = o)) as [->|Hne]; [|by apply (J2 j)].
    intros Hst. destruct (Hj o j Hlook) as [Hle _]. lia.
  - simpl. lia.
Qed.

Lemma read_after_step T o st x :
  sound st → read_after T o st → read_after T o (fst (step st x)).
Proof.
  intros Hs HJ. pose proof Hs as [He Hj]. pose proof HJ as (J1 & J2 & J3).
  destruct x as [o' change|o'|k'|o' n|o'|k']; cbn [step fst].
  - rewrite mutate_eq. by apply read_after_bump.
  - by apply read_after_bump.
  - destruct (get st k') as [r st'] eqn:Hget. cbn [fst].
    assert (Hst' : st' = st ∨
                   st' = mkEngine (store st)
                           (<[k' := mkEntry (current_generation st (organizer_id k'))
                                      (compute (current_rules st (organizer_id k')) k')
                                      (clock st)]> (cache st))
                           (in_flight st) (clock st)).
    { revert Hget. unfold get.
      destruct (cache st !! k') as [e'|]; [destruct (fresh st k' e')|];
        intros [= <- <-]; auto. }
    destruct Hst' as [->| ->].
    + repeat split; [done|done|simpl; lia].
    + repeat split; [|done|simpl; lia].
      intros k e Hk Hlook Hst. simpl in Hlook.
      change (stamp e = current_generation st o) in Hst.
      destruct (decide (k' = k)) as [->|Hne].
      * rewrite lookup_insert_eq in Hlook. inversion Hlook; subst; simpl. lia.
      * rewrite lookup_insert_ne in Hlook by done. by apply (J1 k).
  - unfold precompute. destruct (in_flight st !! o') eqn:Ho'.
    + repeat split; simpl; [done|done|lia].
    + repeat split; simpl; [done| |lia].
      intros j Hlook Hst.
      destruct (decide (o' = o)) as [->|Hne].
      * rewrite lookup_insert_eq in Hlook. inversion Hlook; subst; simpl. lia.
      * rewrite lookup_insert_ne in Hlook by done. by apply J2.
  - unfold run_job. destruct (in_flight st !! o') as [j'|] eqn:Ho'.
    + destruct (Hj o' j' Ho') as (_ & _ & Hkeys).
      repeat split; simpl; [| |lia].
      * intros k e Hk Hlook Hst.
        apply store_entries_lookup in Hlook as [[Hin ->]|[_ Hlook]];
          [|by apply (J1 k)].
        simpl in *. rewrite (Hkeys k Hin) in Hk. subst o'. by apply J2.
      * intros j Hlook Hst.
        destruct (decide (o' = o)) as [->|Hne].
        -- by rewrite lookup_delete_eq in Hlook.
        -- rewrite lookup_delete_ne in Hlook by done. by apply J2.
    + repeat split; simpl; [done|done|lia].
  - repeat split; [|done|simpl; lia].
    intros k e Hk Hlook Hst. simpl in Hlook.
    change (stamp e = current_generation st o) in Hst.
    destruct (decide (k' = k)) as [->|Hne].
    + by rewrite lookup_delete_eq in Hlook.
    + rewrite lookup_delete_ne in Hlook by done. by apply (J1 k).
Qed.

Lemma read_after_run T o st ops :
  sound st → read_after T o st → read_after T o (run st ops).
Proof.
  revert st. induction ops as [|x ops IH]; intros st Hs HJ; [done|].
  simpl. apply IH; [by apply sound_step|by apply read_after_step].
Qed.

Lemma read_after_mutate st o change :
  sound st → read_after (clock st) o (fst (step st (Mutate o change))).
Proof.
  intros [He Hj]. cbn [step fst]. rewrite mutate_eq.
  set (a := mkAggregate _ _). unfold read_after, tick.
  change (current_generation (mkEngine _ _ _ _) o)
    with (current_generation (set_aggregate st o a) o).
  rewrite generation_set_aggregate.
  destruct (decide (o = o)) as [_|]; [|done]. subst a. repeat split.
  - intros k e Hk Hlook Hst. simpl in Hlook, Hst.
    destruct (He k e Hlook) as [Hle _]. rewrite Hk in Hle. lia.
  - intros j Hlook Hst. simpl in Hlook, Hst.
    destruct (Hj o j Hlook) as [Hle _]. lia.
  - simpl. lia.
Qed.

Lemma get_hit st k :
  cache_hit (fst (get st k)) = true →
  ∃ e, cache st !! k = Some e ∧
       stamp e = current_generation st (organizer_id k) ∧
       get st k = (mkSlotResponse (slots e) true, st).
Proof.
  unfold get. destruct (cache st !! k) as [e|]; [|done].
  unfold fresh.
  destruct (Nat.eqb_spec (stamp e) (current_generation st (organizer_id k)));
    [|done].
  intros _. by exists e.
Qed.

Lemma idle_precompute_run_job st o n :
  in_flight st !! o = None →
  run st [Precompute o n; RunJob o] =
  mkEngine (store st)
    (store_entries (mkJob (current_rules st o) (current_generation st o)
                      (clock st) (precompute_keys o n)) (cache st))
    (in_flight st) (S (S (clock st))).
Proof.
  intros Hidle. unfold run; simpl. unfold precompute. rewrite Hidle.
  unfold run_job, tick; simpl. rewrite lookup_insert_eq. simpl.
  by rewrite delete_insert_id.
Qed.

(** C1: whatever operations the engine has gone through, the slots [get]
    serves for a key are those the cold computation yields for the key and
    the organizer's current rules, so a hit cannot be told from a cold
    computation; and when a precompute is scheduled for an organizer with
    no job in flight and its job has run, the rules being unchanged, [get]
    on each precomputed key is a hit with exactly the cold result, and it
    leaves the engine as it is. *)
Theorem get_is_cold_computation (ops : list op) (o days_ahead : nat) (k : key) :
  let st := run empty_engine ops in
  available_slots (fst (get st k))
    = compute (current_rules st (organizer_id k)) k
  ∧ (in_flight st !! o = None →
     In k (precompute_keys o days_ahead) →
     let st' := run st [Precompute o days_ahead; RunJob o] in
     current_rules st' o = current_rules st o ∧
     get st' k = (mkSlotResponse (compute (current_rules st o) k) true, st')).
Proof.
  intros st. split.
  - apply get_slots, sound_run, sound_empty.
  - intros Hidle Hin st'. subst st'. rewrite idle_precompute_run_job by done.
    split; [done|]. unfold get; simpl.
    rewrite store_entries_in by done. unfold fresh; simpl.
    rewrite (precompute_keys_organizer _ _ _ Hin).
    unfold current_generation at 2, aggregate_of; simpl.
    fold (aggregate_of st o). fold (current_generation st o).
    by rewrite Nat.eqb_refl.
Qed.

(** C2: once a mutation of an organizer's rules has been acknowledged, a
    query for that organizer that comes back with cache_hit = true serves
    an entry whose rules were read after the mutation, and its slots are
    the cold computation for the rules as they are now; this holds after
    any operations before and after the mutation. *)
Theorem no_stale_hit_after_mutation (ops1 ops2 : list op) (o : nat)
  (change : rule_set → rule_set) (k : key) :
  organizer_id k = o →
  let before := run empty_engine ops1 in
  let st := run empty_engine (ops1 ++ Mutate o change :: ops2) in
  cache_hit (fst (get st k)) = true →
  ∃ e, cache st !! k = Some e ∧
       available_slots (fst (get st k)) = slots e ∧
       clock before < computed_at e ∧
       slots e = compute (current_rules st o) k.
Proof.
  intros Hk before st Hhit.
  assert (Hsb : sound before) by apply sound_run, sound_empty.
  assert (Hst : st = run (fst (step before (Mutate o change))) ops2).
  { subst st before. by rewrite run_app. }
  assert (Hs : sound st).
  { rewrite Hst. by apply sound_run, sound_step. }
  assert (HJ : read_after (clock before) o st).
  { rewrite Hst. apply read_after_run; [by apply sound_step|].
    by apply read_after_mutate. }
  destruct (get_hit st k Hhit) as (e & Hlook & Hfresh & Hget).
  exists e. rewrite Hget; simpl. destruct HJ as (J1 & _ & _).
  rewrite Hk in Hfresh. repeat split; [done|by apply (J1 k)|].
  destruct Hs as [He _]. destruct (He k e Hlook) as [_ Hcold].
  rewrite Hk in Hcold. by apply Hcold.
Qed.

End Engine.

End CacheLayer.

(** ** The cache layer on a sample instance *)

Module CacheLayerSample.
Import CacheLayer.

Local Open Scope nat_scope.

Local Abbreviation sample_run :=
  (run sample_compute [] sample_event_types ["UTC"; "Europe/Paris"]
     sample_next_days).
Local Abbreviation sample_get := (get sample_compute []).

Lemma get_is_cold_computation_witness :
  let ops := [Mutate 1 (cons 9); Get sample_key; Mutate 1 (cons 13);
              Expire sample_key] in
  let st := sample_run empty_engine ops in
  let st' := sample_run st [Precompute 1 3; RunJob 1] in
  current_rules [] st' 1 = current_rules [] st 1 ∧
  sample_get st' sample_key
  = (mkSlotResponse (sample_compute (current_rules [] st 1) sample_key) true,
     st').
Proof.
  intros ops st st'.
  apply (proj2 (get_is_cold_computation sample_compute [] sample_event_types
                  ["UTC"; "Europe/Paris"] sample_next_days ops 1 3 sample_key)).
  - reflexivity.
  - simpl. auto.
Defined.

Lemma no_stale_hit_after_mutation_witness :
  let ops1 := [Mutate 1 (cons 9); Get sample_key] in
  let ops2 := [Precompute 1 3; RunJob 1] in
  let before := sample_run empty_engine ops1 in
  let st := sample_run empty_engine (ops1 ++ Mutate 1 (cons 13) :: ops2) in
  ∃ e, cache st !! sample_key = Some e ∧
       available_slots (fst (sample_get st sample_key)) = slots e ∧
       clock before < computed_at e ∧
       slots e = sample_compute (current_rules [] st 1) sample_key.
Proof.
  intros ops1 ops2 before st.
  apply (no_stale_hit_after_mutation sample_compute [] sample_event_types
           ["UTC"; "Europe/Paris"] sample_next_days ops1 ops2 1 (cons 13)
           sample_key).
  - reflexivity.
  - reflexivity.
Defined.

Example sample_hit_after_precompute :
  let st := sample_run empty_engine
              [Mutate 1 (cons 9); Get sample_key; Mutate 1 (cons 13);
               Precompute 1 3; RunJob 1] in
  fst (sample_get st sample_key) = mkSlotResponse [20; 16] true.
Proof. reflexivity. Qed.

(** A job scheduled before a mutation stores entries that are never
    served: the query after the mutation is a miss and recomputes. *)
Example sample_stale_job :
  let st := sample_run empty_engine
              [Mutate 1 (cons 9); Precompute 1 3; Mutate 1 (cons 13); RunJob 1] in
  (stamp <$> cache st !! sample_key) = Some 1 ∧
  fst (sample_get st sample_key) = mkSlotResponse [20; 16] false.
Proof. split; reflexivity. Qed.

End CacheLayerSample.

(** ** Page titles *)

Module DashboardLayoutFacts.
Import DashboardLayout.

Example title_exact : getPageTitle "/dashboard/bookings" = VStr "Bookings".
Proof. reflexivity. Qed.

Example title_subpath :
  getPageTitle "/dashboard/event-types/42/edit" = VStr "Event Types".
Proof. reflexivity. Qed.

Example title_unknown_subpath :
  getPageTitle "/dashboard/unknown" = VStr "Dashboard".
Proof. reflexivity. Qed.

Example title_root : getPageTitle "/" = VStr "Dashboard".
Proof. reflexivity. Qed.

Lemma routes_count : List.length routes = 10%nat.
Proof. reflexivity. Qed.

Lemma own_None {A : Type} (fields : list (string * A)) (k : string) :
  (forall v, ~ In (k, v) fields) -> own fields k = None.
Proof.
  induction fields as [|[k' v'] rest IH]; intros Hnot; simpl; [reflexivity|].
  destruct (String.eqb_spec k' k) as [->|Hne].
  - exfalso. apply (Hnot v'). now left.
  - apply IH. intros v Hin. apply (Hnot v). now right.
Qed.

Lemma own_routes_object (pathname : string) :
  (forall title, ~ In (pathname, title) routes) ->
  own routes_object pathname = None.
Proof.
  intros Hnot. apply own_None. intros v Hin. unfold routes_object in Hin.
  apply in_map_iff in Hin. destruct Hin as ([route title] & Heq & Hin).
  simpl in Heq. inversion Heq; subst. exact (Hnot title Hin).
Qed.

(** Two prefixes of one string are comparable. *)
Lemma prefix_comparable (a b p : string) :
  String.prefix a p = true -> String.prefix b p = true ->
  String.prefix a b = true \/ String.prefix b a = true.
Proof.
  revert b p. induction a as [|c a IH]; intros b p Ha Hb;
    [left; destruct b; reflexivity|].
  destruct b as [|d b]; [right; reflexivity|].
  destruct p as [|e p]; [discriminate|].
  cbn [String.prefix] in *.
  destruct (ascii_dec c e) as [->|]; [|discriminate].
  destruct (ascii_dec d e) as [->|]; [|discriminate].
  destruct (ascii_dec e e); [|contradiction].
  now apply (IH b p).
Qed.

(** No route is a prefix of another one, '/dashboard' apart. *)
Lemma routes_are_prefix_free :
  forallb (fun r1 =>
    forallb (fun r2 =>
      implb (negb (fst r1 =? "/dashboard") && negb (fst r2 =? "/dashboard")
             && String.prefix (fst r1) (fst r2))
            ((fst r1 =? fst r2) && (snd r1 =? snd r2)))
      routes) routes = true.
Proof. reflexivity. Qed.

Lemma prefix_free (r1 t1 r2 t2 : string) :
  In (r1, t1) routes -> In (r2, t2) routes ->
  r1 <> "/dashboard" -> r2 <> "/dashboard" ->
  String.prefix r1 r2 = true -> t1 = t2.
Proof.
  intros H1 H2 Hd1 Hd2 Hp.
  pose proof routes_are_prefix_free as Hall.
  rewrite forallb_forall in Hall. specialize (Hall _ H1).
  rewrite forallb_forall in Hall. specialize (Hall _ H2). simpl in Hall.
  apply String.eqb_neq in Hd1, Hd2. rewrite Hd1, Hd2, Hp in Hall. simpl in Hall.
  apply andb_prop in Hall. destruct Hall as [_ Ht].
  now apply String.eqb_eq in Ht.
Qed.

Lemma partial_match_Some (entries : list (string * string)) (pathname title : string) :
  partial_match entries pathname = Some title ->
  exists route, In (route, title) entries /\ route <> "/dashboard"
                /\ startsWith pathname route = true.
Proof.
  induction entries as [|[route t] rest IH]; simpl; [discriminate|].
  destruct (startsWith pathname route) eqn:Hp; simpl.
  - destruct (String.eqb_spec route "/dashboard") as [->|Hne]; simpl.
    + intros H. destruct (IH H) as (r & Hin & Hr). exists r. tauto.
    + intros [= <-]. exists route. auto.
  - intros H. destruct (IH H) as (r & Hin & Hr). exists r. tauto.
Qed.

Lemma partial_match_None (entries : list (string * string)) (pathname : string) :
  partial_match entries pathname = None <->
  (forall route title, In (route, title) entries -> route <> "/dashboard" ->
                       startsWith pathname route = false).
Proof.
  induction entries as [|[route t] rest IH]; simpl.
  - split; [intros _ ? ? []|reflexivity].
  - destruct (startsWith pathname route) eqn:Hp; simpl.
    + destruct (String.eqb_spec route "/dashboard") as [->|Hne]; simpl.
      * rewrite IH. split.
        -- intros H r t' [[= <- <-]|Hin] Hr; [contradiction|now apply (H r t')].
        -- intros H r t' Hin. apply (H r t'). now right.
      * split; [discriminate|]. intros H.
        specialize (H route t (or_introl eq_refl) Hne). congruence.
    + rewrite IH. split.
      * intros H r t' [[= <- <-]|Hin] Hr; [assumption|now apply (H r t')].
      * intros H r t' Hin. apply (H r t'). now right.
Qed.

Lemma getPageTitle_no_exact (pathname : string) :
  inherited pathname = false ->
  (forall title, ~ In (pathname, title) routes) ->
  getPageTitle pathname =
  match partial_match routes pathname with
  | Some title => VStr title
  | None => VStr "Dashboard"
  end.
Proof.
  intros Hproto Hnot. unfold getPageTitle, get.
  rewrite (own_routes_object _ Hnot), Hproto. reflexivity.
Qed.

(** The pathname of a URL begins with a slash; no member of
    [Object.prototype] does. *)
Lemma url_pathname_not_inherited (pathname : string) :
  startsWith pathname "/" = true -> inherited pathname = false.
Proof.
  destruct pathname as [|c rest]; [discriminate|].
  unfold startsWith. cbn [String.prefix].
  destruct (ascii_dec "/" c) as [<-|]; [|discriminate]. intros _. reflexivity.
Qed.

(** C9: for every pathname (a pathname begins with a slash, so it is not
    the name of a member inherited from Object.prototype, see
    [url_pathname_not_inherited]), getPageTitle returns the mapped title
    when the pathname is one of the ten routes; otherwise the title of the
    route other than '/dashboard' that is a prefix of the pathname when
    there is one; otherwise 'Dashboard'. *)
Theorem getPageTitle_spec (pathname : string) :
  inherited pathname = false ->
  List.length routes = 10%nat /\
  (forall title, In (pathname, title) routes ->
     getPageTitle pathname = VStr title) /\
  ((forall title, ~ In (pathname, title) routes) ->
     (forall route title,
        In (route, title) routes -> route <> "/dashboard" ->
        startsWith pathname route = true ->
        getPageTitle pathname = VStr title) /\
     ((forall route title,
         In (route, title) routes -> route <> "/dashboard" ->
         startsWith pathname route = false) ->
      getPageTitle pathname = VStr "Dashboard")).
Proof.
  intros Hproto. split; [reflexivity|]. split.
  - intros title Hin. simpl in Hin.
    repeat (destruct Hin as [[= <- <-]|Hin]; [reflexivity|]). contradiction.
  - intros Hnot. rewrite (getPageTitle_no_exact _ Hproto Hnot). split.
    + intros route title Hin Hne Hp.
      destruct (partial_match routes pathname) as [t|] eqn:Hm.
      * apply partial_match_Some in Hm. destruct Hm as (r & Hr & Hrne & Hrp).
        f_equal. unfold startsWith in *.
        destruct (prefix_comparable _ _ _ Hrp Hp) as [Hc|Hc].
        -- exact (prefix_free _ _ _ _ Hr Hin Hrne Hne Hc).
        -- symmetry. exact (prefix_free _ _ _ _ Hin Hr Hne Hrne Hc).
      * rewrite partial_match_None in Hm.
        rewrite (Hm route title Hin Hne) in Hp. discriminate.
    + intros Hnone. apply partial_match_None in Hnone. now rewrite Hnone.
Qed.

Lemma getPageTitle_spec_witness :
  getPageTitle "/dashboard/settings/profile" = VStr "Settings".
Proof.
  refine (proj1 (proj2 (proj2 (getPageTitle_spec "/dashboard/settings/profile" _)) _)
            "/dashboard/settings" "Settings" _ _ _).
  - reflexivity.
  - intros title Hin. simpl in Hin.
    repeat (destruct Hin as [Hin|Hin]; [discriminate Hin|]). exact Hin.
  - simpl. tauto.
  - discriminate.
  - reflexivity.
Defined.

(** Outside the pathnames: 'constructor' is no route and no route is a
    prefix of it, and the lookup in the routes object finds the member
    inherited under that name.  The layout never passes such a string. *)
Lemma getPageTitle_constructor :
  (forall title, ~ In ("constructor", title) routes) /\
  (forall route title, In (route, title) routes ->
                       startsWith "constructor" route = false) /\
  getPageTitle "constructor" = VInherited "constructor" /\
  getPageTitle "constructor" <> VStr "Dashboard".
Proof.
  split; [|split; [|split]].
  - intros title Hin. simpl in Hin.
    repeat (destruct Hin as [Hin|Hin]; [discriminate Hin|]). exact Hin.
  - intros route title Hin. simpl in Hin.
    repeat (destruct Hin as [[= <- <-]|Hin]; [reflexivity|]). contradiction.
  - reflexivity.
  - discriminate.
Qed.

End DashboardLayoutFacts.

(** ** Form validation *)

Module ZodFacts.

Lemma parse_shape_issues shape path data :
  snd (parse_shape shape path data) =
  flat_map (fun ks => res_issues (snd ks (path ++ [fst ks]) (get data (fst ks))))
           shape.
Proof.
  induction shape as [|[key s] rest IH]; [reflexivity|].
  simpl. destruct (parse_shape rest path data) as [[st out] iss].
  simpl in *. now rewrite IH.
Qed.

Lemma flat_map_nil {A B : Type} (f : A -> list B) (l : list A) :
  flat_map f l = [] <-> Forall (fun x => f x = []) l.
Proof.
  induction l as [|x l IH]; simpl.
  - split; [constructor|reflexivity].
  - split.
    + intros H. apply app_eq_nil in H. destruct H as [Hx Hl].
      constructor; [assumption|now apply IH].
    + intros H. inversion H; subst. apply IH in H3. now rewrite H2, H3.
Qed.

Lemma coherent_checked v issues : coherent (checked v issues).
Proof. unfold coherent, checked. destruct issues; simpl; split; congruence. Qed.

Lemma coherent_INVALID path v : coherent (INVALID path v).
Proof. unfold coherent, INVALID. simpl. split; discriminate. Qed.

Lemma z_string_well_behaved checks : well_behaved (z_string checks).
Proof.
  intros path v. destruct v; try apply coherent_INVALID. apply coherent_checked.
Qed.

Lemma z_number_well_behaved checks : well_behaved (z_number checks).
Proof.
  intros path v. destruct v as [| |?|n|?|?|?|?]; try apply coherent_INVALID.
  destruct n; [apply coherent_INVALID|apply coherent_checked..].
Qed.

Lemma z_boolean_well_behaved : well_behaved z_boolean.
Proof.
  intros path v. destruct v; try apply coherent_INVALID. apply coherent_checked.
Qed.

Lemma optional_well_behaved inner :
  well_behaved inner -> well_behaved (Zod.optional inner).
Proof.
  intros H path v. destruct v; try apply H. apply coherent_checked.
Qed.

Lemma refine_well_behaved inner check msg at_path :
  well_behaved inner -> well_behaved (refine inner check msg at_path).
Proof.
  intros H path v. unfold refine. specialize (H path v).
  destruct (res_status (inner path v)) eqn:Hst; try assumption;
    destruct (check (res_output (inner path v))); try assumption;
    unfold coherent; simpl; (split; [discriminate|]);
    intros Happ; apply app_eq_nil in Happ; destruct Happ; discriminate.
Qed.

Lemma merge_Valid a b : merge a b = Valid <-> a = Valid /\ b = Valid.
Proof. destruct a, b; simpl; split; (intros [? ?] || intros ?); auto; discriminate. Qed.

Lemma parse_shape_coherent shape path data :
  Forall (fun ks => well_behaved (snd ks)) shape ->
  fst (fst (parse_shape shape path data)) = Valid <->
  snd (parse_shape shape path data) = [].
Proof.
  induction 1 as [|[key s] rest Hs Hrest IH]; [simpl; tauto|].
  simpl. destruct (parse_shape rest path data) as [[st out] iss].
  simpl in *. pose proof (Hs (path ++ [key]) (get data key)) as Hc.
  unfold coherent in Hc. rewrite merge_Valid, IH, Hc.
  split.
  - intros [-> ->]. reflexivity.
  - intros H. now apply app_eq_nil in H.
Qed.

Lemma z_object_well_behaved shape :
  Forall (fun ks => well_behaved (snd ks)) shape -> well_behaved (z_object shape).
Proof.
  intros H path v. destruct v as [| |?|?|?|?|data|?]; try apply coherent_INVALID.
  unfold z_object, coherent. pose proof (parse_shape_coherent shape path data H) as Hc.
  destruct (parse_shape shape path data) as [[st out] iss]. exact Hc.
Qed.

Ltac shape_well_behaved :=
  repeat (apply List.Forall_cons;
          [simpl;
           auto using z_number_well_behaved, z_string_well_behaved,
                      z_boolean_well_behaved, optional_well_behaved,
                      refine_well_behaved|]);
  apply List.Forall_nil.

(** For the schemas above, to succeed is to raise no issue. *)
Lemma success_no_issues s v :
  well_behaved s -> success s v = true <-> res_issues (s [] v) = [].
Proof.
  intros H. unfold success. specialize (H [] v). unfold coherent in H.
  rewrite <- H. destruct (res_status (s [] v)); split; congruence.
Qed.

(** An object schema accepts exactly the objects each of whose shape keys
    passes its own schema. *)
Lemma z_object_success shape v :
  Forall (fun ks => well_behaved (snd ks)) shape ->
  success (z_object shape) v = true <->
  exists data, v = VObj data /\
    Forall (fun ks => res_issues (snd ks [fst ks] (get data (fst ks))) = []) shape.
Proof.
  intros Hwb. rewrite (success_no_issues _ _ (z_object_well_behaved _ Hwb)).
  unfold z_object. destruct v as [| |b|n|s|items|data|name];
    try (split; [discriminate|intros (d & Hd & _); discriminate]).
  pose proof (parse_shape_issues shape [] data) as Hiss.
  destruct (parse_shape shape [] data) as [[st out] iss]. simpl in *.
  rewrite Hiss. split.
  - intros H. exists data. split; [reflexivity|]. now apply flat_map_nil.
  - intros (d & [= <-] & H). now apply flat_map_nil in H.
Qed.

Lemma z_number_range a b path v :
  res_issues (z_number [num_min a; num_max b] path v) = [] <->
  exists n, v = VNum n /\ n <> NaN /\ JS.lt n a = false /\ JS.gt n b = false.
Proof.
  destruct v as [| |x|n|s|items|data|name];
    try (split; [discriminate|intros (m & Hm & _); discriminate]).
  assert (Hrun : forall m, m <> NaN ->
            res_issues (z_number [num_min a; num_max b] path (VNum m)) =
            run_number_check path m (num_min a)
              ++ run_number_check path m (num_max b)).
  { intros m Hm. destruct m; [contradiction| |];
      cbn [z_number checked res_issues flat_map]; now rewrite app_nil_r. }
  destruct n as [|p|q].
  - split; [discriminate|]. intros (m & [= <-] & Hm & _). contradiction.
  - rewrite Hrun by discriminate. cbn [run_number_check].
    destruct (JS.lt (Inf p) a) eqn:Ha, (JS.gt (Inf p) b) eqn:Hb;
      (split; [simpl; try discriminate
              |intros (m & [= <-] & _ & Hx & Hy); first [congruence|reflexivity]]).
    intros _. exists (Inf p). repeat split; auto; discriminate.
  - rewrite Hrun by discriminate. cbn [run_number_check].
    destruct (JS.lt (Fin q) a) eqn:Ha, (JS.gt (Fin q) b) eqn:Hb;
      (split; [simpl; try discriminate
              |intros (m & [= <-] & _ & Hx & Hy); first [congruence|reflexivity]]).
    intros _. exists (Fin q). repeat split; auto; discriminate.
Qed.

Lemma number_between (n : number) (lo hi : Z) :
  n <> NaN /\ JS.lt n (of_Z lo) = false /\ JS.gt n (of_Z hi) = false <->
  exists q, n = Fin q /\ (inject_Z lo <= q)%Q /\ (q <= inject_Z hi)%Q.
Proof.
  destruct n as [|p|q].
  - split; [intros [H _]; contradiction|intros (q & Hq & _); discriminate].
  - split; [|intros (q & Hq & _); discriminate].
    destruct p; simpl; intros (_ & H1 & H2); discriminate.
  - unfold JS.gt, of_Z. simpl. rewrite !negb_false_iff, !Qle_bool_iff. split.
    + intros (_ & H1 & H2). now exists q.
    + intros (q' & [= <-] & H1 & H2). repeat split; auto; discriminate.
Qed.

Lemma z_string_min n msg path v :
  res_issues (z_string [str_min n msg] path v) = [] <->
  exists s, v = VStr s /\ (n <= String.length s)%nat.
Proof.
  destruct v as [| |x|m|s|items|data|name];
    try (split; [discriminate|intros (s' & Hs & _); discriminate]).
  simpl. destruct (Nat.ltb_spec (String.length s) n); simpl.
  - split; [discriminate|]. intros (s' & [= <-] & Hs). lia.
  - split; [|reflexivity]. intros _. now exists s.
Qed.

Lemma z_boolean_ok path v :
  res_issues (z_boolean path v) = [] <-> exists b, v = VBool b.
Proof.
  destruct v as [| |x|m|s|items|data|name];
    try (split; [discriminate|intros (b' & Hb); discriminate]).
  split; [|reflexivity]. intros _. now exists x.
Qed.

Lemma length_pos (s : string) : (1 <= String.length s)%nat <-> s <> "".
Proof.
  destruct s as [|c s]; simpl; split.
  - lia.
  - congruence.
  - discriminate.
  - lia.
Qed.

End ZodFacts.

Module AvailabilityPageFacts.
Import AvailabilityPage ZodFacts.

Lemma field_get (v : value) (k : string) (x : value) :
  x <> VUndefined -> field v k = x -> exists data, v = VObj data /\ get data k = x.
Proof.
  intros Hx. destruct v; simpl; intros H; try congruence. now eexists.
Qed.

(** C7: the weekly-rule form is accepted exactly when day_of_week is a
    number between 0 and 6, start_time and end_time are non-empty strings
    and is_active is a boolean; in particular acceptance requires the day
    to lie in 0..6 and both times to be non-empty, and a submission whose
    day_of_week is below 0 or above 6 is rejected. *)
Theorem ruleSchema_accepts (v : value) :
  (success ruleSchema v = true <->
   exists d s e b,
     field v "day_of_week" = VNum (Fin d) /\
     (inject_Z 0 <= d)%Q /\ (d <= inject_Z 6)%Q /\
     field v "start_time" = VStr s /\ s <> "" /\
     field v "end_time" = VStr e /\ e <> "" /\
     field v "is_active" = VBool b)
  /\ (forall n, field v "day_of_week" = VNum n ->
        JS.lt n (of_Z 0) = true \/ JS.gt n (of_Z 6) = true ->
        success ruleSchema v = false).
Proof.
  assert (Hiff : success ruleSchema v = true <->
    exists data, v = VObj data /\
      (exists n, get data "day_of_week" = VNum n /\ n <> NaN /\
                 JS.lt n (of_Z 0) = false /\ JS.gt n (of_Z 6) = false) /\
      (exists s, get data "start_time" = VStr s /\ (1 <= String.length s)%nat) /\
      (exists e, get data "end_time" = VStr e /\ (1 <= String.length e)%nat) /\
      (exists b, get data "is_active" = VBool b)).
  { unfold ruleSchema. rewrite z_object_success by shape_well_behaved.
    split; intros (data & -> & H); exists data; (split; [reflexivity|]).
    - inversion H as [|? ? H1 H']; subst. inversion H' as [|? ? H2 H'']; subst.
      inversion H'' as [|? ? H3 H''']; subst. inversion H''' as [|? ? H4 _]; subst.
      simpl in H1, H2, H3, H4.
      apply z_number_range in H1. apply z_string_min in H2, H3.
      apply z_boolean_ok in H4. auto.
    - destruct H as (H1 & H2 & H3 & H4).
      repeat constructor; simpl.
      + now apply z_number_range.
      + now apply z_string_min.
      + now apply z_string_min.
      + now apply z_boolean_ok. }
  split.
  - rewrite Hiff. split.
    + intros (data & -> & (n & Hn & Hrange) & (s & Hs & Hls) & (e & He & Hle)
              & (b & Hb)).
      apply number_between in Hrange. destruct Hrange as (d & -> & Hlo & Hhi).
      exists d, s, e, b. simpl. rewrite length_pos in Hls, Hle. auto 10.
    + intros (d & s & e & b & Hd & Hlo & Hhi & Hs & Hsne & He & Hene & Hb).
      apply field_get in Hd; [|discriminate]. destruct Hd as (data & -> & Hd).
      simpl in Hs, He, Hb. exists data. split; [reflexivity|].
      repeat split.
      * exists (Fin d). split; [assumption|]. apply number_between. now exists d.
      * exists s. now rewrite length_pos.
      * exists e. now rewrite length_pos.
      * now exists b.
  - intros n Hn Hout. apply not_true_is_false. rewrite Hiff.
    intros (data & -> & (m & Hm & _ & Hlo & Hhi) & _).
    simpl in Hn. rewrite Hn in Hm. inversion Hm; subst.
    destruct Hout; congruence.
Qed.

Lemma ruleSchema_accepts_witness :
  success ruleSchema
    (VObj [("day_of_week", VNum (of_Z 7)); ("start_time", VStr "09:00");
           ("end_time", VStr "17:00"); ("is_active", VBool true)]) = false.
Proof.
  refine (proj2 (ruleSchema_accepts _) (of_Z 7) _ _).
  - reflexivity.
  - right. reflexivity.
Defined.

(** Each mutation of a weekly rule makes the page refetch the rule list
    once the server has acknowledged it. *)
Lemma rule_mutations_refetch :
  In (invalidateQueries ["availability-rules"]) (onSuccess createRuleMutation) /\
  In (invalidateQueries ["availability-rules"]) (onSuccess updateRuleMutation) /\
  In (invalidateQueries ["availability-rules"]) (onSuccess deleteRuleMutation).
Proof. simpl. tauto. Qed.

Example rule_monday_accepted :
  success ruleSchema
    (VObj [("day_of_week", VNum (of_Z 0)); ("start_time", VStr "09:00");
           ("end_time", VStr "17:00"); ("is_active", VBool true)]) = true.
Proof. reflexivity. Qed.

(** The placeholder option of the day select yields NaN. *)
Example rule_no_day_rejected :
  success ruleSchema
    (VObj [("day_of_week", VNum NaN); ("start_time", VStr "09:00");
           ("end_time", VStr "17:00"); ("is_active", VBool true)]) = false.
Proof. reflexivity. Qed.

End AvailabilityPageFacts.

Module BufferFacts.
Import AvailabilityPage ZodFacts Api Types.

Lemma z_number_output checks path n :
  exists m, res_output (z_number checks path (VNum n)) = VNum m /\ m = n.
Proof. exists n. now destruct n. Qed.

Lemma bufferSchema_output data a b c d :
  get data "default_buffer_before" = VNum a ->
  get data "default_buffer_after" = VNum b ->
  get data "minimum_gap" = VNum c ->
  get data "slot_interval_minutes" = VNum d ->
  res_output (bufferSchema [] (VObj data)) =
  VObj [ ("default_buffer_before", VNum a); ("default_buffer_after", VNum b);
         ("minimum_gap", VNum c); ("slot_interval_minutes", VNum d) ].
Proof.
  intros Ha Hb Hc Hd. unfold bufferSchema, z_object.
  cbn [parse_shape app]. rewrite Ha, Hb, Hc, Hd.
  destruct (z_number_output [num_min (of_Z 0); num_max (of_Z 120)]
              ["default_buffer_before"] a) as (a' & -> & ->).
  destruct (z_number_output [num_min (of_Z 0); num_max (of_Z 120)]
              ["default_buffer_after"] b) as (b' & -> & ->).
  destruct (z_number_output [num_min (of_Z 0); num_max (of_Z 60)]
              ["minimum_gap"] c) as (c' & -> & ->).
  destruct (z_number_output [num_min (of_Z 5); num_max (of_Z 60)]
              ["slot_interval_minutes"] d) as (d' & -> & ->).
  reflexivity.
Qed.

(** C5, as it holds: the BufferTime record read from /availability/buffer/
    has the members default_buffer_before, default_buffer_after,
    minimum_gap and slot_interval_minutes, and created_at and updated_at
    besides; what the buffer form patches to that endpoint has exactly the
    four members default_buffer_before, default_buffer_after, minimum_gap
    and slot_interval_minutes, each a number. *)
Theorem buffer_settings_fields :
  member_names BufferTime =
    [ "default_buffer_before"; "default_buffer_after"; "minimum_gap";
      "slot_interval_minutes"; "created_at"; "updated_at" ]
  /\ forall values r,
       submitBufferForm values = Some r ->
       req_method r = PATCH /\ req_url r = "/availability/buffer/" /\
       exists a b c d,
         req_data r =
         Some (VObj [ ("default_buffer_before", VNum a);
                      ("default_buffer_after", VNum b);
                      ("minimum_gap", VNum c);
                      ("slot_interval_minutes", VNum d) ]).
Proof.
  split; [reflexivity|]. intros values r. unfold submitBufferForm.
  destruct (res_status (bufferSchema [] values)) eqn:Hst; try discriminate.
  intros [= <-]. split; [reflexivity|]. split; [reflexivity|].
  assert (Hok : success bufferSchema values = true).
  { unfold success. now rewrite Hst. }
  unfold bufferSchema in Hok. apply z_object_success in Hok;
    [|shape_well_behaved].
  destruct Hok as (data & -> & H).
  inversion H as [|? ? H1 H']; subst. inversion H' as [|? ? H2 H'']; subst.
  inversion H'' as [|? ? H3 H''']; subst. inversion H''' as [|? ? H4 _]; subst.
  simpl in H1, H2, H3, H4.
  apply z_number_range in H1, H2, H3, H4.
  destruct H1 as (a & Ha & _), H2 as (b & Hb & _), H3 as (c & Hc & _),
           H4 as (d & Hd & _).
  exists a, b, c, d. cbn [mutationFn updateBufferMutation
                           availabilityApi.updateBufferSettings_request req_data].
  now rewrite (bufferSchema_output data a b c d).
Qed.

Lemma buffer_settings_fields_witness :
  exists a b c d,
    req_data (mkRequest PATCH "/availability/buffer/" []
      (Some (VObj [ ("default_buffer_before", VNum (of_Z 10));
                    ("default_buffer_after", VNum (of_Z 5));
                    ("minimum_gap", VNum (of_Z 0));
                    ("slot_interval_minutes", VNum (of_Z 30)) ]))) =
    Some (VObj [ ("default_buffer_before", VNum a);
                 ("default_buffer_after", VNum b);
                 ("minimum_gap", VNum c);
                 ("slot_interval_minutes", VNum d) ]).
Proof.
  refine (proj2 (proj2 (proj2 buffer_settings_fields
    (VObj [ ("slot_interval_minutes", VNum (of_Z 30));
            ("default_buffer_before", VNum (of_Z 10));
            ("default_buffer_after", VNum (of_Z 5));
            ("minimum_gap", VNum (of_Z 0));
            ("updated_at", VStr "2024-05-01T10:00:00Z") ]) _ _))).
  reflexivity.
Defined.

(** C5, as stated, fails: a record with the members buffer_before,
    buffer_after, minimum_gap and slot_interval_minutes is no BufferTime
    and the buffer form does not send it, while a record that is a
    BufferTime has other members than these four. *)
Lemma buffer_settings_not_four_fields :
  let claimed :=
    VObj [ ("buffer_before", VNum (of_Z 10)); ("buffer_after", VNum (of_Z 5));
           ("minimum_gap", VNum (of_Z 0));
           ("slot_interval_minutes", VNum (of_Z 30)) ] in
  let actual :=
    [ ("default_buffer_before", VNum (of_Z 10));
      ("default_buffer_after", VNum (of_Z 5));
      ("minimum_gap", VNum (of_Z 0));
      ("slot_interval_minutes", VNum (of_Z 30));
      ("created_at", VStr "2024-05-01T10:00:00Z");
      ("updated_at", VStr "2024-05-01T10:00:00Z") ] in
  has_type BufferTime claimed = false /\
  submitBufferForm claimed = None /\
  has_type BufferTime (VObj actual) = true /\
  keys actual <>
    ["buffer_before"; "buffer_after"; "minimum_gap"; "slot_interval_minutes"] /\
  member_names BufferTime <>
    ["buffer_before"; "buffer_after"; "minimum_gap"; "slot_interval_minutes"].
Proof. repeat split; discriminate. Qed.

End BufferFacts.

Module PrecomputeFacts.
Import AvailabilityPage Api.

(** C6: for every argument, precomputeCache posts to
    /availability/cache/precompute/ a body whose days_ahead member is that
    argument, and hands back the data of the response; the dashboard calls
    it with 14 and on success only reports that the precomputation has
    started. *)
Theorem precomputeCache_posts_days_ahead (daysAhead : option number) :
  let r := availabilityApi.precomputeCache_request daysAhead in
  req_method r = POST /\
  req_url r = "/availability/cache/precompute/" /\
  req_data r = Some (VObj [("days_ahead", opt_number daysAhead)]) /\
  (forall n, daysAhead = Some n ->
     option_map (fun body => field body "days_ahead") (req_data r)
     = Some (VNum n)) /\
  (forall response,
     availabilityApi.precomputeCache_result response = response_data response) /\
  mutationFn precomputeCacheMutation tt =
    availabilityApi.precomputeCache_request (Some (of_Z 14)) /\
  onSuccess precomputeCacheMutation =
    [toast_success "Cache precomputation started"].
Proof.
  repeat split. intros n ->. reflexivity.
Qed.

Lemma precomputeCache_posts_days_ahead_witness :
  option_map (fun body => field body "days_ahead")
    (req_data (availabilityApi.precomputeCache_request (Some (of_Z 14))))
  = Some (VNum (of_Z 14)).
Proof.
  exact (proj1 (proj2 (proj2 (proj2
           (precomputeCache_posts_days_ahead (Some (of_Z 14))))))
           (of_Z 14) eq_refl).
Defined.

End PrecomputeFacts.

Module RegisterPageFacts.
Import RegisterPage.

Section Register.

Variable emailRegex : string -> bool.

(** The issues raised for the values of the form, field by field. *)
Lemma register_issues (f : FormValues) :
  res_issues (schema emailRegex [] (form_object f)) =
  (if (String.length (first_name f) <? 1)%nat
   then [mkIssue too_small ["first_name"] (Message "First name is required")]
   else [])
  ++ (if emailRegex (email f) then []
      else [mkIssue invalid_string ["email"]
              (Message "Please enter a valid email address")])
  ++ (if (String.length (password f) <? 8)%nat
      then [mkIssue too_small ["password"]
              (Message "Password must be at least 8 characters")]
      else [])
  ++ (if terms_accepted f then []
      else [mkIssue custom ["terms_accepted"]
              (Message "You must accept the terms and conditions")])
  ++ (if String.eqb (password f) (password_confirm f) then []
      else [passwords_issue]).
Proof.
  destruct f as [fn ln un em pw pc ta].
  unfold schema, form_object, passwords_issue.
  unfold refine, z_object, z_string, z_boolean, optional, checked.
  destruct ln, un; cbn -[Nat.ltb];
    destruct (String.length fn <? 1)%nat, (emailRegex em),
             (String.length pw <? 8)%nat, ta, (String.eqb pw pc);
    reflexivity.
Qed.

Lemma schema_well_behaved : well_behaved (schema emailRegex).
Proof.
  unfold schema. apply ZodFacts.refine_well_behaved, ZodFacts.z_object_well_behaved.
  ZodFacts.shape_well_behaved.
Qed.

(** C10: the registration form is accepted exactly when first_name is not
    empty, email passes the e-mail pattern, password has at least 8
    characters, password and password_confirm are equal and terms_accepted
    is true; when the two passwords differ, the issue raised for it is
    attached to password_confirm, and to no other field. *)
Theorem register_schema_spec (f : FormValues) :
  (success (schema emailRegex) (form_object f) = true <->
   first_name f <> "" /\
   emailRegex (email f) = true /\
   (8 <= String.length (password f))%nat /\
   password f = password_confirm f /\
   terms_accepted f = true)
  /\ (password f <> password_confirm f ->
      let issues := res_issues (schema emailRegex [] (form_object f)) in
      In passwords_issue issues /\
      forall i, In i issues ->
                issue_message i = Message "Passwords don't match" ->
                issue_path i = ["password_confirm"]).
Proof.
  rewrite (ZodFacts.success_no_issues _ _ schema_well_behaved).
  rewrite register_issues. split.
  - rewrite <- ZodFacts.length_pos.
    destruct (Nat.ltb_spec (String.length (first_name f)) 1),
             (emailRegex (email f)),
             (Nat.ltb_spec (String.length (password f)) 8),
             (terms_accepted f),
             (String.eqb_spec (password f) (password_confirm f));
      simpl; split; try discriminate; try (intros _; repeat split; auto; lia);
      intros (H1 & H2 & H3 & H4 & H5);
      first [lia | discriminate | contradiction].
  - intros Hne. cbv zeta.
    apply String.eqb_neq in Hne. rewrite Hne. split.
    + rewrite !in_app_iff. simpl. tauto.
    + intros i Hin Hmsg. rewrite !in_app_iff in Hin.
      destruct (String.length (first_name f) <? 1)%nat,
               (emailRegex (email f)),
               (String.length (password f) <? 8)%nat,
               (terms_accepted f);
        simpl in Hin; intuition (subst; first [reflexivity|discriminate]).
Qed.

End Register.

Lemma register_schema_spec_witness :
  In (passwords_issue)
     (res_issues (schema (fun s => String.eqb s "ada@example.com") []
                    (form_object sample_form))).
Proof.
  refine (proj1 (proj2 (register_schema_spec _ sample_form) _)).
  discriminate.
Defined.

Example register_accepts :
  success (schema (fun s => String.eqb s "ada@example.com"))
    (form_object
       (mkForm "Ada" (Some "") (Some "") "ada@example.com" "correct horse"
          "correct horse" true)) = true.
Proof. reflexivity. Qed.

(** When a field has the wrong type the object parse aborts and the
    comparison of the passwords is not run at all. *)
Example register_missing_name_skips_comparison :
  res_issues
    (schema (fun s => String.eqb s "ada@example.com") []
       (VObj [ ("email", VStr "ada@example.com"); ("password", VStr "12345678");
               ("password_confirm", VStr "87654321");
               ("terms_accepted", VBool true) ]))
  = [mkIssue invalid_type ["first_name"] DefaultMessage].
Proof. reflexivity. Qed.

End RegisterPageFacts.

(** ** Requests and responses of the public slot query *)

Module SlotQueryFacts.
Import Api Types.

Lemma has_type_interface_cons k opt t rest (fields : list (string * value)) :
  has_type (TInterface ((k, (opt, t)) :: rest)) (VObj fields) =
  member_ok fields k opt (has_type t) && has_type (TInterface rest) (VObj fields).
Proof. reflexivity. Qed.

Lemma has_type_array_items t items :
  has_type (TArray t) (VArr items) = forallb (has_type t) items.
Proof. reflexivity. Qed.

Lemma interface_member members (fields : list (string * value)) k opt t :
  has_type (TInterface members) (VObj fields) = true ->
  In (k, (opt, t)) members ->
  member_ok fields k opt (has_type t) = true.
Proof.
  induction members as [|[k' [opt' t']] rest IH]; [intros _ []|].
  rewrite has_type_interface_cons.
  intros H. apply andb_prop in H. destruct H as [Hm Hrest].
  intros [[= -> -> ->]|Hin]; [assumption|]. now apply IH.
Qed.

(** A required member is there, with a value of its type. *)
Lemma required_member members (fields : list (string * value)) k t :
  has_type (TInterface members) (VObj fields) = true ->
  In (k, required t) members ->
  has_type t (get fields k) = true.
Proof.
  intros H Hin. pose proof (interface_member _ _ _ _ _ H Hin) as Hm.
  unfold member_ok in Hm. unfold get.
  destruct (own fields k) as [v|]; [|discriminate].
  destruct v; try discriminate; assumption.
Qed.

Lemma has_type_boolean v : has_type TBoolean v = true -> exists b, v = VBool b.
Proof. destruct v; try discriminate. eauto. Qed.

Lemma has_type_number v : has_type TNumber v = true -> exists n, v = VNum n.
Proof. destruct v; try discriminate. eauto. Qed.

Lemma has_type_array t v :
  has_type (TArray t) v = true ->
  exists items, v = VArr items /\ Forall (fun x => has_type t x = true) items.
Proof.
  destruct v as [| |?|?|?|items|?|?]; try discriminate.
  rewrite has_type_array_items, forallb_forall. intros H. exists items.
  split; [reflexivity|]. now apply List.Forall_forall.
Qed.

Lemma has_type_literal alternatives v :
  has_type (TLiteral alternatives) v = true ->
  exists s, v = VStr s /\ In s alternatives.
Proof.
  destruct v as [| |?|?|s|?|?|?]; try discriminate.
  change (has_type (TLiteral alternatives) (VStr s))
    with (existsb (String.eqb s) alternatives).
  rewrite existsb_exists. intros (x & Hin & Heq).
  apply String.eqb_eq in Heq. subst x. eauto.
Qed.

Lemma own_without (fields : list (string * value)) ks k :
  own (List.filter (fun kv => negb (existsb (String.eqb (fst kv)) ks)) fields) k =
  if existsb (String.eqb k) ks then None else own fields k.
Proof.
  induction fields as [|[k' v] rest IH]; simpl.
  - now destruct (existsb _ ks).
  - destruct (existsb (String.eqb k') ks) eqn:Hk'; simpl.
    + rewrite IH. destruct (String.eqb_spec k' k) as [->|]; [|reflexivity].
      now rewrite Hk'.
    + destruct (String.eqb_spec k' k) as [->|]; [|exact IH].
      now rewrite Hk'.
Qed.

(** What a value of the interface AvailabilityResponse holds. *)
Lemma typed_response_members (response : AxiosResponse) :
  has_type AvailabilityResponse (response_data response) = true ->
  let r := publicApi.getAvailableSlots_result response in
  (exists slots, field r "available_slots" = VArr slots /\
                 Forall (fun s => has_type AvailableSlot s = true) slots) /\
  (exists b, field r "cache_hit" = VBool b) /\
  (exists n, field r "total_slots" = VNum n) /\
  (exists n, field r "computation_time_ms" = VNum n) /\
  member AvailabilityResponse "multi_invitee_mode" = Some (true, TBoolean) /\
  member AvailabilityResponse "invitee_timezones" = Some (true, TArray TString) /\
  has_type AvailabilityResponse
    (without r ["multi_invitee_mode"; "invitee_timezones"]) = true.
Proof.
  unfold publicApi.getAvailableSlots_result.
  destruct (response_data response) as [| |b|n|s|items|fields|name];
    try discriminate.
  intros H. cbv zeta. unfold field.
  assert (Hrest : has_type AvailabilityResponse
            (without (VObj fields) ["multi_invitee_mode"; "invitee_timezones"])
          = true).
  { revert H. unfold AvailabilityResponse, without, required, Types.optional.
    rewrite !has_type_interface_cons. unfold member_ok. rewrite !own_without.
    cbn [existsb String.eqb Ascii.eqb Bool.eqb orb]. intros H.
    repeat (apply andb_prop in H; destruct H as [?H H]).
    repeat (apply andb_true_intro; split); assumption || reflexivity. }
  assert (Hreq : forall k t, In (k, required t) [
             ("available_slots", required (TArray AvailableSlot));
             ("cache_hit", required TBoolean);
             ("total_slots", required TNumber);
             ("computation_time_ms", required TNumber) ] ->
           has_type t (get fields k) = true).
  { intros k t Hin. apply (required_member _ _ _ _ H).
    simpl in Hin |- *. tauto. }
  repeat split; try assumption.
  - apply has_type_array, Hreq. simpl. tauto.
  - apply has_type_boolean, Hreq. simpl. tauto.
  - apply has_type_number, Hreq. simpl. tauto.
  - apply has_type_number, Hreq. simpl. tauto.
Qed.

(** C3, as it holds: getAvailableSlots returns the body of the response as
    it is, under the declared type AvailabilityResponse and with no check;
    when the body has the shape of that interface, the result holds an
    array available_slots of AvailableSlot, a boolean cache_hit and
    numbers total_slots and computation_time_ms, and it still has that
    shape without multi_invitee_mode and invitee_timezones, which the
    interface declares optional. *)
Theorem getAvailableSlots_response_shape (response : AxiosResponse) :
  let r := publicApi.getAvailableSlots_result response in
  r = response_data response /\
  member AvailabilityResponse "multi_invitee_mode" = Some (true, TBoolean) /\
  member AvailabilityResponse "invitee_timezones" = Some (true, TArray TString) /\
  (has_type AvailabilityResponse (response_data response) = true ->
   (exists slots, field r "available_slots" = VArr slots /\
                  Forall (fun s => has_type AvailableSlot s = true) slots) /\
   (exists b, field r "cache_hit" = VBool b) /\
   (exists n, field r "total_slots" = VNum n) /\
   (exists n, field r "computation_time_ms" = VNum n) /\
   has_type AvailabilityResponse
     (without r ["multi_invitee_mode"; "invitee_timezones"]) = true).
Proof.
  cbv zeta. repeat (split; [reflexivity|]). intros H.
  pose proof (typed_response_members response H) as Hm. cbv zeta in Hm. tauto.
Qed.

Lemma getAvailableSlots_response_shape_witness :
  let data :=
    VObj [ ("organizer_slug", VStr "ada"); ("event_type_slug", VStr "intro");
           ("start_date", VStr "2024-05-01"); ("end_date", VStr "2024-05-02");
           ("invitee_timezone", VStr "Europe/Paris");
           ("attendee_count", VNum (of_Z 1));
           ("available_slots",
             VArr [ VObj [ ("start_time", VStr "2024-05-01T09:00:00Z");
                           ("end_time", VStr "2024-05-01T09:30:00Z");
                           ("duration_minutes", VNum (of_Z 30)) ] ]);
           ("cache_hit", VBool true);
           ("total_slots", VNum (of_Z 1));
           ("computation_time_ms", VNum (Fin (5 # 2))) ] in
  exists b, field (publicApi.getAvailableSlots_result (mkResponse 200 data))
              "cache_hit" = VBool b.
Proof.
  intros data.
  refine (proj1 (proj2 (proj2 (proj2 (proj2
            (getAvailableSlots_response_shape (mkResponse 200 data)))) _))).
  reflexivity.
Defined.

(** C3, as stated, fails: a successful response whose body is
    [{ cache_hit: 'yes' }] is returned as it is; the result is no
    AvailabilityResponse, its cache_hit is a string and it has no
    available_slots array. *)
Lemma getAvailableSlots_unchecked_body :
  let body := VObj [("cache_hit", VStr "yes")] in
  let r := publicApi.getAvailableSlots_result (mkResponse 200 body) in
  r = body /\
  has_type AvailabilityResponse r = false /\
  field r "cache_hit" = VStr "yes" /\
  (~ exists b, field r "cache_hit" = VBool b) /\
  (~ exists slots, field r "available_slots" = VArr slots).
Proof.
  cbv zeta. repeat split; try reflexivity.
  - intros (b & H). discriminate H.
  - intros (slots & H). discriminate H.
Qed.

(** C8, as it holds: the source of a BlockedTime is one of manual,
    google_calendar, outlook_calendar, apple_calendar and external_sync. *)
Theorem BlockedTime_source (v : value) :
  has_type BlockedTime v = true ->
  exists s, field v "source" = VStr s /\
            In s [ "manual"; "google_calendar"; "outlook_calendar";
                   "apple_calendar"; "external_sync" ].
Proof.
  destruct v as [| |?|?|?|?|fields|?]; try discriminate.
  intros H. unfold field. apply has_type_literal.
  apply (required_member _ _ _ _ H). simpl. tauto.
Qed.

Lemma BlockedTime_source_witness :
  exists s,
    field (VObj [ ("id", VStr "b1");
                  ("start_datetime", VStr "2024-05-01T12:00:00Z");
                  ("end_datetime", VStr "2024-05-01T13:00:00Z");
                  ("reason", VStr "Lunch"); ("source", VStr "manual");
                  ("source_display", VStr "Manual"); ("external_id", VStr "");
                  ("is_active", VBool true);
                  ("created_at", VStr "2024-04-30T08:00:00Z");
                  ("updated_at", VStr "2024-04-30T08:00:00Z") ]) "source"
    = VStr s /\
    In s [ "manual"; "google_calendar"; "outlook_calendar";
           "apple_calendar"; "external_sync" ].
Proof.
  refine (BlockedTime_source _ _). reflexivity.
Defined.

(** C8, as stated, fails: a blocked time synchronised from Google Calendar
    is a BlockedTime, and its source is neither manual nor external sync. *)
Lemma BlockedTime_source_google :
  let blocked :=
    VObj [ ("id", VStr "b2");
           ("start_datetime", VStr "2024-05-01T12:00:00Z");
           ("end_datetime", VStr "2024-05-01T13:00:00Z");
           ("reason", VStr "Busy"); ("source", VStr "google_calendar");
           ("source_display", VStr "Google Calendar");
           ("external_id", VStr "evt_17");
           ("external_updated_at", VStr "2024-04-30T08:00:00Z");
           ("is_active", VBool true);
           ("created_at", VStr "2024-04-30T08:00:00Z");
           ("updated_at", VStr "2024-04-30T08:00:00Z") ] in
  has_type BlockedTime blocked = true /\
  field blocked "source" = VStr "google_calendar" /\
  field blocked "source" <> VStr "manual" /\
  field blocked "source" <> VStr "external-sync" /\
  field blocked "source" <> VStr "external_sync".
Proof. repeat split; discriminate. Qed.

End SlotQueryFacts.

(** ** The sidebar and the page title *)

Module SidebarFacts.
Import DashboardLayout DashboardLayoutFacts Sidebar.

Lemma navigation_routes :
  map (fun item => (href item, name item)) navigation = routes.
Proof. reflexivity. Qed.

Lemma navigation_in_routes item :
  In item navigation -> In (href item, name item) routes.
Proof.
  intros Hin. rewrite <- navigation_routes.
  apply (in_map (fun i => (href i, name i))), Hin.
Qed.

(** An active item is a prefix of the pathname. *)
Lemma isActive_prefix pathname item :
  isActive pathname item = true -> startsWith pathname (href item) = true.
Proof.
  unfold isActive. intros H. apply orb_prop in H. destruct H as [H|H].
  - apply String.eqb_eq in H. subst pathname. unfold startsWith.
    induction (href item) as [|c s IH]; [reflexivity|].
    cbn [String.prefix]. now destruct (ascii_dec c c).
  - apply andb_prop in H. tauto.
Qed.

(** Among the hrefs of the sidebar only '/dashboard' is a proper prefix of
    another one. *)
Lemma navigation_prefixes :
  forallb (fun i =>
    forallb (fun j =>
      implb (String.prefix (href i) (href j))
            ((href i =? "/dashboard") || (href i =? href j)))
      navigation) navigation = true.
Proof. reflexivity. Qed.

Lemma navigation_href_inj i j :
  In i navigation -> In j navigation -> href i = href j -> i = j.
Proof.
  intros Hi Hj. simpl in Hi, Hj.
  repeat (destruct Hi as [<-|Hi]; [
    repeat (destruct Hj as [<-|Hj]; [first [reflexivity|discriminate]|]);
    contradiction|]).
  contradiction.
Qed.

Lemma navigation_prefix i j :
  In i navigation -> In j navigation ->
  String.prefix (href i) (href j) = true ->
  href i = "/dashboard" \/ i = j.
Proof.
  intros Hi Hj Hp. pose proof navigation_prefixes as Hall.
  rewrite forallb_forall in Hall. specialize (Hall _ Hi).
  rewrite forallb_forall in Hall. specialize (Hall _ Hj).
  rewrite Hp in Hall. simpl in Hall. apply orb_prop in Hall.
  destruct Hall as [H|H]; apply String.eqb_eq in H; [now left|right].
  now apply navigation_href_inj.
Qed.

(** The sidebar item '/dashboard' is active on '/dashboard' only. *)
Lemma dashboard_active_exact pathname item :
  href item = "/dashboard" -> isActive pathname item = true ->
  pathname = "/dashboard".
Proof.
  unfold isActive. intros ->. rewrite String.eqb_refl. simpl.
  rewrite orb_false_r. apply String.eqb_eq.
Qed.

(** Of two active entries one of whose hrefs is a prefix of the other's,
    there is only one. *)
Lemma active_prefix_unique (pathname : string) (a b : nav_item) :
  In a navigation -> In b navigation ->
  isActive pathname a = true -> isActive pathname b = true ->
  String.prefix (href a) (href b) = true -> a = b.
Proof.
  intros Ha Hb Haa Hab Hp.
  destruct (navigation_prefix a b Ha Hb Hp) as [Hd|]; [|assumption].
  pose proof (dashboard_active_exact _ _ Hd Haa) as ->.
  apply isActive_prefix in Hab. unfold startsWith in Hab.
  assert (Hd' : In (mkNav "Dashboard" "/dashboard") navigation) by (simpl; tauto).
  destruct (navigation_prefix b _ Hb Hd' Hab) as [Hbd|Hbd].
  - apply navigation_href_inj; congruence.
  - subst b. apply navigation_href_inj; auto.
Qed.

(** X1: for every pathname at most one entry of the sidebar is shown as
    active. *)
Theorem isActive_unique (pathname : string) (i j : nav_item) :
  In i navigation -> In j navigation ->
  isActive pathname i = true -> isActive pathname j = true ->
  i = j.
Proof.
  intros Hi Hj Hai Haj.
  pose proof (isActive_prefix _ _ Hai) as Hpi.
  pose proof (isActive_prefix _ _ Haj) as Hpj.
  unfold startsWith in Hpi, Hpj.
  destruct (prefix_comparable _ _ _ Hpi Hpj) as [Hp|Hp].
  - now apply (active_prefix_unique pathname).
  - symmetry. now apply (active_prefix_unique pathname).
Qed.

Lemma isActive_unique_witness :
  mkNav "Settings" "/dashboard/settings" = mkNav "Settings" "/dashboard/settings".
Proof.
  apply (isActive_unique "/dashboard/settings/profile"); simpl; tauto || reflexivity.
Defined.

Lemma own_In {A : Type} (fields : list (string * A)) k v :
  own fields k = Some v -> In (k, v) fields.
Proof.
  induction fields as [|[k' v'] rest IH]; simpl; [discriminate|].
  destruct (String.eqb_spec k' k) as [->|Hne].
  - intros [= ->]. now left.
  - intros H. right. now apply IH.
Qed.

Lemma own_not_In {A : Type} (fields : list (string * A)) k :
  own fields k = None -> forall v, ~ In (k, v) fields.
Proof.
  induction fields as [|[k' v'] rest IH]; simpl; [tauto|].
  destruct (String.eqb_spec k' k) as [->|Hne]; [discriminate|].
  intros H v [[= ? ?]|Hin]; [contradiction|]. now apply (IH H v).
Qed.

Lemma route_title_exact pathname title :
  In (pathname, title) routes -> getPageTitle pathname = VStr title.
Proof.
  intros Hin. simpl in Hin.
  repeat (destruct Hin as [[= <- <-]|Hin]; [reflexivity|]). contradiction.
Qed.

Lemma route_in_navigation route title :
  In (route, title) routes -> In (mkNav title route) navigation.
Proof.
  intros Hin. simpl in Hin |- *.
  repeat (destruct Hin as [[= <- <-]|Hin]; [tauto|]). contradiction.
Qed.

Lemma prefix_trans a b c :
  String.prefix a b = true -> String.prefix b c = true ->
  String.prefix a c = true.
Proof.
  revert b c. induction a as [|x a IH]; intros b c Hab Hbc.
  - destruct c; reflexivity.
  - destruct b as [|y b]; [discriminate|]. destruct c as [|z c]; [discriminate|].
    cbn [String.prefix] in *.
    destruct (ascii_dec x y) as [->|]; [|discriminate].
    destruct (ascii_dec y z) as [->|]; [|discriminate].
    destruct (ascii_dec z z); [|contradiction]. now apply (IH b c).
Qed.

Lemma navigation_href_slash item :
  In item navigation -> String.prefix "/" (href item) = true.
Proof.
  intros Hin. simpl in Hin.
  repeat (destruct Hin as [<-|Hin]; [reflexivity|]). contradiction.
Qed.

(** The title of a pathname on which an item of the sidebar is active is
    the name of that item. *)
Lemma active_item_title pathname item :
  In item navigation -> isActive pathname item = true ->
  getPageTitle pathname = VStr (name item).
Proof.
  intros Hin Hact. destruct (own routes pathname) as [t|] eqn:Hown.
  - apply own_In in Hown. rewrite (route_title_exact _ _ Hown).
    assert (Hother : isActive pathname (mkNav t pathname) = true).
    { unfold isActive. simpl. now rewrite String.eqb_refl. }
    pose proof (route_in_navigation _ _ Hown) as Hnav.
    pose proof (isActive_prefix _ _ Hact) as Hp. unfold startsWith in Hp.
    assert (Heq : mkNav t pathname = item).
    { destruct (String.eqb_spec pathname (href item)) as [He|Hne].
      - apply navigation_href_inj; assumption.
      - symmetry. apply (active_prefix_unique pathname); assumption. }
    now rewrite <- Heq.
  - pose proof (own_not_In _ _ Hown) as Hnot.
    pose proof (isActive_prefix _ _ Hact) as Hp.
    assert (Hne : href item <> "/dashboard").
    { intros Hd. pose proof (dashboard_active_exact _ _ Hd Hact) as ->.
      discriminate Hown. }
    assert (Hproto : inherited pathname = false).
    { apply url_pathname_not_inherited. unfold startsWith in *.
      exact (prefix_trans _ _ _ (navigation_href_slash _ Hin) Hp). }
    rewrite (getPageTitle_no_exact _ Hproto Hnot).
    destruct (partial_match routes pathname) as [t|] eqn:Hm.
    + apply partial_match_Some in Hm. destruct Hm as (r & Hr & Hrne & Hrp).
      f_equal. unfold startsWith in *.
      pose proof (navigation_in_routes _ Hin) as Hitem.
      destruct (prefix_comparable _ _ _ Hrp Hp) as [Hc|Hc].
      * exact (prefix_free _ _ _ _ Hr Hitem Hrne Hne Hc).
      * symmetry. exact (prefix_free _ _ _ _ Hitem Hr Hne Hrne Hc).
    + rewrite partial_match_None in Hm.
      rewrite (Hm _ _ (navigation_in_routes _ Hin) Hne) in Hp. discriminate.
Qed.

(** X2: the title in the top bar is the name of the sidebar entry shown
    as active; when no entry is active, and the pathname is not the name
    of a member inherited from Object.prototype (no URL pathname is), the
    title is 'Dashboard'. *)
Theorem title_follows_active_item (pathname : string) :
  (forall item, In item navigation -> isActive pathname item = true ->
                getPageTitle pathname = VStr (name item)) /\
  (inherited pathname = false ->
   (forall item, In item navigation -> isActive pathname item = false) ->
   getPageTitle pathname = VStr "Dashboard").
Proof.
  split; [intros item; apply active_item_title|].
  intros Hproto Hnone.
  assert (Hnot : forall title, ~ In (pathname, title) routes).
  { intros title Hin.
    pose proof (Hnone _ (route_in_navigation _ _ Hin)) as H.
    unfold isActive in H. simpl in H. now rewrite String.eqb_refl in H. }
  rewrite (getPageTitle_no_exact _ Hproto Hnot).
  assert (Hm : partial_match routes pathname = None).
  { apply partial_match_None. intros route title Hin Hne.
    pose proof (Hnone _ (route_in_navigation _ _ Hin)) as H.
    unfold isActive in H. simpl in H. apply orb_false_elim in H.
    destruct H as [_ H]. apply String.eqb_neq in Hne. now rewrite Hne in H. }
  now rewrite Hm.
Qed.

Lemma title_follows_active_item_witness :
  getPageTitle "/login" = VStr "Dashboard".
Proof.
  refine (proj2 (title_follows_active_item "/login") _ _).
  - reflexivity.
  - intros item Hin. simpl in Hin.
    repeat (destruct Hin as [<-|Hin]; [reflexivity|]). contradiction.
Defined.

Lemma prefix_append a b : String.prefix a (a ++ b) = true.
Proof.
  induction a as [|c a IH]; [destruct b; reflexivity|].
  change (String.append (String c a) b) with (String c (String.append a b)).
  cbn [String.prefix].
  destruct (ascii_dec c c); [assumption|contradiction].
Qed.

(** X3: every pathname that extends a route other than '/dashboard', by
    whatever characters, carries the title of that route: sub-pages such
    as '/dashboard/bookings/42', and also '/dashboard/bookings-old'. *)
Theorem getPageTitle_extension (route title suffix : string) :
  In (route, title) routes -> route <> "/dashboard" ->
  getPageTitle (route ++ suffix) = VStr title.
Proof.
  intros Hin Hne.
  apply (active_item_title (route ++ suffix) (mkNav title route)).
  - now apply route_in_navigation.
  - unfold isActive, startsWith. simpl.
    apply String.eqb_neq in Hne. rewrite Hne, prefix_append.
    apply orb_true_r.
Qed.

Lemma getPageTitle_extension_witness :
  getPageTitle ("/dashboard/bookings" ++ "-old") = VStr "Bookings".
Proof.
  apply getPageTitle_extension; [simpl; tauto|discriminate].
Defined.

End SidebarFacts.

(** ** The other forms of the availability page *)

Module AvailabilityFormsFacts.
Import AvailabilityPage AvailabilityForms ZodFacts Api.

Lemma optional_string_ok path v :
  res_issues (Zod.optional (z_string []) path v) = [] <-> string_or_undefined v.
Proof.
  unfold string_or_undefined.
  destruct v as [| |?|?|s|?|?|?]; simpl; split;
    try (intros _; auto; right; eexists; reflexivity);
    try discriminate;
    intros [H|(s' & H)]; discriminate H.
Qed.

Lemma field_object (v : value) (k : string) (x : value) :
  field v k = x -> x <> VUndefined -> exists data, v = VObj data.
Proof.
  destruct v; simpl; intros H Hx; try congruence. now eexists.
Qed.

Lemma day_or_minutes_ok lo hi path v :
  res_issues (z_number [num_min (of_Z lo); num_max (of_Z hi)] path v) = [] <->
  exists q, v = VNum (Fin q) /\ (inject_Z lo <= q)%Q /\ (q <= inject_Z hi)%Q.
Proof.
  rewrite z_number_range. split.
  - intros (n & -> & Hn). apply number_between in Hn.
    destruct Hn as (q & -> & Hq). now exists q.
  - intros (q & -> & Hq). exists (Fin q). split; [reflexivity|].
    apply number_between. now exists q.
Qed.

Lemma nonempty_string_ok msg path v :
  res_issues (z_string [str_min 1 msg] path v) = [] <->
  exists s, v = VStr s /\ s <> "".
Proof.
  rewrite z_string_min. split; intros (s & -> & Hs); exists s;
    (split; [reflexivity|]); now apply length_pos.
Qed.

Ltac forall_shape H :=
  repeat match type of H with
         | Forall _ (_ :: _) =>
             let Hx := fresh "Hfield" in
             let Hr := fresh "Hrest" in
             inversion H as [|? ? Hx Hr]; subst; clear H; rename Hr into H;
             simpl in Hx
         end.

(** X6: the buffer form is accepted exactly when its four values are
    numbers with default_buffer_before and default_buffer_after between 0
    and 120, minimum_gap between 0 and 60 and slot_interval_minutes
    between 5 and 60, the bounds included. *)
Theorem bufferSchema_accepts (v : value) :
  success bufferSchema v = true <->
  exists a b c d,
    field v "default_buffer_before" = VNum (Fin a) /\
    (inject_Z 0 <= a)%Q /\ (a <= inject_Z 120)%Q /\
    field v "default_buffer_after" = VNum (Fin b) /\
    (inject_Z 0 <= b)%Q /\ (b <= inject_Z 120)%Q /\
    field v "minimum_gap" = VNum (Fin c) /\
    (inject_Z 0 <= c)%Q /\ (c <= inject_Z 60)%Q /\
    field v "slot_interval_minutes" = VNum (Fin d) /\
    (inject_Z 5 <= d)%Q /\ (d <= inject_Z 60)%Q.
Proof.
  unfold bufferSchema. rewrite z_object_success by shape_well_behaved. split.
  - intros (data & -> & H). forall_shape H.
    apply day_or_minutes_ok in Hfield, Hfield0, Hfield1, Hfield2.
    destruct Hfield as (a & Ha & ? & ?), Hfield0 as (b & Hb & ? & ?),
             Hfield1 as (c & Hc & ? & ?), Hfield2 as (d & Hd & ? & ?).
    exists a, b, c, d. simpl. auto 15.
  - intros (a & b & c & d & Ha & ? & ? & Hb & ? & ? & Hc & ? & ? & Hd & ? & ?).
    destruct (field_object v _ _ Ha) as (data & ->); [discriminate|].
    simpl in Ha, Hb, Hc, Hd. exists data. split; [reflexivity|].
    repeat (apply List.Forall_cons; [simpl; apply day_or_minutes_ok; eauto|]).
    apply List.Forall_nil.
Qed.

(** X7: the date-override form is accepted exactly when date is a
    non-empty string, is_available and is_active are booleans, and each of
    start_time, end_time and reason is a string or is missing; so an
    override marked available is accepted without any hours. *)
Theorem overrideSchema_accepts (v : value) :
  success overrideSchema v = true <->
  (exists d, field v "date" = VStr d /\ d <> "") /\
  (exists b, field v "is_available" = VBool b) /\
  string_or_undefined (field v "start_time") /\
  string_or_undefined (field v "end_time") /\
  string_or_undefined (field v "reason") /\
  (exists b, field v "is_active" = VBool b).
Proof.
  unfold overrideSchema. rewrite z_object_success by shape_well_behaved. split.
  - intros (data & -> & H). forall_shape H.
    apply nonempty_string_ok in Hfield. apply z_boolean_ok in Hfield0, Hfield4.
    apply optional_string_ok in Hfield1, Hfield2, Hfield3.
    simpl. auto 10.
  - intros ((d & Hd & Hne) & Ha & Hs & He & Hr & Hact).
    destruct (field_object v _ _ Hd) as (data & ->); [discriminate|].
    simpl in *. exists data. split; [reflexivity|].
    apply List.Forall_cons; [simpl; apply nonempty_string_ok; eauto|].
    apply List.Forall_cons; [simpl; now apply z_boolean_ok|].
    apply List.Forall_cons; [simpl; now apply optional_string_ok|].
    apply List.Forall_cons; [simpl; now apply optional_string_ok|].
    apply List.Forall_cons; [simpl; now apply optional_string_ok|].
    apply List.Forall_cons; [simpl; now apply z_boolean_ok|].
    apply List.Forall_nil.
Qed.

(** X8: the recurring-block form is accepted exactly when name,
    start_time and end_time are non-empty strings, day_of_week is a number
    between 0 and 6, start_date and end_date are strings or missing, and
    is_active is a boolean. *)
Theorem recurringBlockSchema_accepts (v : value) :
  success recurringBlockSchema v = true <->
  (exists n, field v "name" = VStr n /\ n <> "") /\
  (exists d, field v "day_of_week" = VNum (Fin d) /\
             (inject_Z 0 <= d)%Q /\ (d <= inject_Z 6)%Q) /\
  (exists s, field v "start_time" = VStr s /\ s <> "") /\
  (exists e, field v "end_time" = VStr e /\ e <> "") /\
  string_or_undefined (field v "start_date") /\
  string_or_undefined (field v "end_date") /\
  (exists b, field v "is_active" = VBool b).
Proof.
  unfold recurringBlockSchema. rewrite z_object_success by shape_well_behaved.
  split.
  - intros (data & -> & H). forall_shape H.
    apply nonempty_string_ok in Hfield, Hfield1, Hfield2.
    apply day_or_minutes_ok in Hfield0. apply z_boolean_ok in Hfield5.
    apply optional_string_ok in Hfield3, Hfield4.
    simpl. auto 10.
  - intros ((n & Hn & Hne) & Hd & Hs & He & Hsd & Hed & Hact).
    destruct (field_object v _ _ Hn) as (data & ->); [discriminate|].
    simpl in *. exists data. split; [reflexivity|].
    apply List.Forall_cons; [simpl; apply nonempty_string_ok; eauto|].
    apply List.Forall_cons; [simpl; now apply day_or_minutes_ok|].
    apply List.Forall_cons; [simpl; now apply nonempty_string_ok|].
    apply List.Forall_cons; [simpl; now apply nonempty_string_ok|].
    apply List.Forall_cons; [simpl; now apply optional_string_ok|].
    apply List.Forall_cons; [simpl; now apply optional_string_ok|].
    apply List.Forall_cons; [simpl; now apply z_boolean_ok|].
    apply List.Forall_nil.
Qed.

(** X15: the blocked-time form is accepted exactly when start_datetime
    and end_datetime are non-empty strings, reason is a string or missing
    and is_active is a boolean; the two instants are not compared. *)
Theorem blockedTimeSchema_accepts (v : value) :
  success blockedTimeSchema v = true <->
  (exists s, field v "start_datetime" = VStr s /\ s <> "") /\
  (exists e, field v "end_datetime" = VStr e /\ e <> "") /\
  string_or_undefined (field v "reason") /\
  (exists b, field v "is_active" = VBool b).
Proof.
  unfold blockedTimeSchema. rewrite z_object_success by shape_well_behaved.
  split.
  - intros (data & -> & H). forall_shape H.
    apply nonempty_string_ok in Hfield, Hfield0.
    apply optional_string_ok in Hfield1. apply z_boolean_ok in Hfield2.
    simpl. auto.
  - intros ((s & Hs & Hne) & He & Hr & Hact).
    destruct (field_object v _ _ Hs) as (data & ->); [discriminate|].
    simpl in *. exists data. split; [reflexivity|].
    apply List.Forall_cons; [simpl; apply nonempty_string_ok; eauto|].
    apply List.Forall_cons; [simpl; now apply nonempty_string_ok|].
    apply List.Forall_cons; [simpl; now apply optional_string_ok|].
    apply List.Forall_cons; [simpl; now apply z_boolean_ok|].
    apply List.Forall_nil.
Qed.

Lemma ruleSchema_success (v : value) :
  success ruleSchema v = true <->
  (exists d, field v "day_of_week" = VNum (Fin d) /\
             (inject_Z 0 <= d)%Q /\ (d <= inject_Z 6)%Q) /\
  (exists s, field v "start_time" = VStr s /\ s <> "") /\
  (exists e, field v "end_time" = VStr e /\ e <> "") /\
  (exists b, field v "is_active" = VBool b).
Proof.
  unfold ruleSchema. rewrite z_object_success by shape_well_behaved. split.
  - intros (data & -> & H). forall_shape H.
    apply day_or_minutes_ok in Hfield. apply nonempty_string_ok in Hfield0, Hfield1.
    apply z_boolean_ok in Hfield2. simpl. auto.
  - intros ((d & Hd & Hlo & Hhi) & Hs & He & Hb).
    destruct (field_object v _ _ Hd) as (data & ->); [discriminate|].
    simpl in *. exists data. split; [reflexivity|].
    apply List.Forall_cons; [simpl; apply day_or_minutes_ok; eauto|].
    apply List.Forall_cons; [simpl; now apply nonempty_string_ok|].
    apply List.Forall_cons; [simpl; now apply nonempty_string_ok|].
    apply List.Forall_cons; [simpl; now apply z_boolean_ok|].
    apply List.Forall_nil.
Qed.

Lemma rule_object_success (r : RuleFormData) :
  success ruleSchema (rule_object r) = true <->
  (exists d, day_of_week r = Fin d /\
             (inject_Z 0 <= d)%Q /\ (d <= inject_Z 6)%Q) /\
  start_time r <> "" /\ end_time r <> "".
Proof.
  rewrite ruleSchema_success. destruct r as [day s e a]. simpl. split.
  - intros ((d & [= ->] & Hd) & (s' & [= <-] & Hs) & (e' & [= <-] & He) & _).
    eauto.
  - intros ((d & -> & Hd) & Hs & He). repeat split; eauto.
Qed.

(** X4: the rule form never compares the two times: a rule it accepts is
    still accepted with start_time and end_time exchanged, and with
    end_time equal to start_time. *)
Theorem ruleSchema_times_unordered (r : RuleFormData) :
  success ruleSchema (rule_object r) = true ->
  success ruleSchema
    (rule_object (mkRule (day_of_week r) (end_time r) (start_time r) (is_active r)))
    = true /\
  success ruleSchema
    (rule_object (mkRule (day_of_week r) (start_time r) (start_time r) (is_active r)))
    = true.
Proof.
  rewrite !rule_object_success. simpl. intros (Hd & Hs & He). auto.
Qed.

Lemma ruleSchema_times_unordered_witness :
  success ruleSchema
    (rule_object (mkRule (of_Z 4) "02:00" "22:00" true)) = true /\
  success ruleSchema
    (rule_object (mkRule (of_Z 4) "22:00" "22:00" true)) = true.
Proof.
  apply (ruleSchema_times_unordered (mkRule (of_Z 4) "22:00" "02:00" true)).
  reflexivity.
Defined.

Lemma ruleSchema_output data d s e b :
  get data "day_of_week" = VNum (Fin d) ->
  get data "start_time" = VStr s ->
  get data "end_time" = VStr e ->
  get data "is_active" = VBool b ->
  res_output (ruleSchema [] (VObj data)) =
  VObj [ ("day_of_week", VNum (Fin d)); ("start_time", VStr s);
         ("end_time", VStr e); ("is_active", VBool b) ].
Proof.
  intros Hd Hs He Hb. unfold ruleSchema, z_object.
  cbn [parse_shape app]. rewrite Hd, Hs, He, Hb. reflexivity.
Qed.

(** X5: submitting the rule form sends a request only when the values are
    valid, and then the body holds exactly day_of_week (a number between 0
    and 6), start_time and end_time (non-empty) and is_active, whatever
    else the form values hold; it is a POST to /availability/rules/ when
    no rule is being edited, and otherwise a PATCH to
    /availability/rules/<id>/ where <id> is the string that the id of the
    edited item converts to, whatever that id is.  With valid values a
    request is sent whenever no rule is being edited or the id converts to
    a string. *)
Theorem submitRuleForm_request (ToString : value -> option string)
  (editingItem values : value) :
  (forall r : request,
     submitRuleForm ToString editingItem values = Some r ->
     success ruleSchema values = true /\
     (exists d s e b,
        req_data r =
          Some (VObj [ ("day_of_week", VNum (Fin d)); ("start_time", VStr s);
                       ("end_time", VStr e); ("is_active", VBool b) ]) /\
        (inject_Z 0 <= d)%Q /\ (d <= inject_Z 6)%Q /\ s <> "" /\ e <> "") /\
     (truthy editingItem = false ->
        req_method r = POST /\ req_url r = "/availability/rules/") /\
     (truthy editingItem = true ->
        exists id, ToString (field editingItem "id") = Some id /\
                   req_method r = PATCH /\
                   req_url r = ("/availability/rules/" ++ id ++ "/")%string)) /\
  (success ruleSchema values = true ->
   (truthy editingItem = true ->
      exists id, ToString (field editingItem "id") = Some id) ->
   exists r, submitRuleForm ToString editingItem values = Some r).
Proof.
  unfold submitRuleForm. split.
  - intros r.
    destruct (res_status (ruleSchema [] values)) eqn:Hst; try discriminate.
    assert (Hok : success ruleSchema values = true).
    { unfold success. now rewrite Hst. }
    pose proof Hok as Hfields. rewrite ruleSchema_success in Hfields.
    destruct Hfields as ((d & Hd & Hlo & Hhi) & (s & Hs & Hsne) & (e & He & Hene)
                         & (b & Hb)).
    destruct (field_object values _ _ Hd) as (data & ->); [discriminate|].
    simpl in Hd, Hs, He, Hb.
    rewrite (ruleSchema_output data d s e b Hd Hs He Hb).
    unfold onRuleSubmit. intros Hr. split; [assumption|].
    destruct (truthy editingItem) eqn:Hed.
    + destruct (ToString (field editingItem "id")) as [id|] eqn:Hid;
        [|discriminate].
      injection Hr as <-. split; [|split; [discriminate|]].
      * exists d, s, e, b. auto.
      * intros _. exists id. auto.
    + injection Hr as <-. split; [|split; [|discriminate]].
      * exists d, s, e, b. auto.
      * auto.
  - unfold success. intros Hok Hid.
    destruct (res_status (ruleSchema [] values)); try discriminate.
    unfold onRuleSubmit. destruct (truthy editingItem).
    + destruct (Hid eq_refl) as (id & ->). eauto.
    + eauto.
Qed.

Lemma submitRuleForm_request_witness :
  let editingItem := VObj [("id", VNum (of_Z 7)); ("day_of_week_display", VStr "Monday")] in
  let values :=
    VObj [ ("id", VNum (of_Z 7)); ("day_of_week", VNum (of_Z 0));
           ("day_of_week_display", VStr "Monday"); ("start_time", VStr "09:00");
           ("end_time", VStr "17:00"); ("is_active", VBool true);
           ("created_at", VStr "2024-04-30T08:00:00Z") ] in
  let r :=
    mkRequest PATCH "/availability/rules/7/" []
      (Some (VObj [ ("day_of_week", VNum (of_Z 0)); ("start_time", VStr "09:00");
                    ("end_time", VStr "17:00"); ("is_active", VBool true) ])) in
  exists id,
    ToString_sample (field editingItem "id") = Some id /\
    req_method r = PATCH /\
    req_url r = ("/availability/rules/" ++ id ++ "/")%string.
Proof.
  intros editingItem values r.
  refine (proj2 (proj2 (proj2
            (proj1 (submitRuleForm_request ToString_sample editingItem values)
               r _))) _);
    reflexivity.
Defined.

End AvailabilityFormsFacts.

(** ** Calls of services/api.ts that build their URL or body themselves *)

Module ApiMoreFacts.
Import Api ApiMore Objects.

Lemma append_cons c (a b : string) :
  (String c a ++ b)%string = String c (a ++ b)%string.
Proof. reflexivity. Qed.

Lemma append_empty (b : string) : ("" ++ b)%string = b.
Proof. reflexivity. Qed.

Lemma append_inj_l (p a b : string) : (p ++ a)%string = (p ++ b)%string -> a = b.
Proof.
  induction p as [|c p IH]; [now rewrite !append_empty|].
  rewrite !append_cons. intros [= H]. now apply IH.
Qed.

Lemma append_length (a b : string) :
  String.length (a ++ b) = (String.length a + String.length b)%nat.
Proof.
  induction a as [|c a IH]; [reflexivity|].
  rewrite append_cons. simpl. now rewrite IH.
Qed.

Lemma append_inj_r (a b s : string) : (a ++ s)%string = (b ++ s)%string -> a = b.
Proof.
  revert b. induction a as [|c a IH]; intros [|d b] H.
  - reflexivity.
  - apply (f_equal String.length) in H.
    rewrite !append_length in H. simpl in H. lia.
  - apply (f_equal String.length) in H.
    rewrite !append_length in H. simpl in H. lia.
  - rewrite !append_cons in H. injection H as -> H. f_equal. now apply IH.
Qed.

(** A slash-free string followed by a slash is cut at that slash. *)
Lemma slash_split (a1 b1 a2 b2 : string) :
  no_slash a1 = true -> no_slash a2 = true ->
  (a1 ++ "/" ++ b1)%string = (a2 ++ "/" ++ b2)%string ->
  a1 = a2 /\ b1 = b2.
Proof.
  revert a2. induction a1 as [|c a1 IH]; intros [|d a2] H1 H2 H.
  - rewrite !append_empty in H. split; [reflexivity|].
    now apply (append_inj_l "/").
  - rewrite append_empty, !append_cons in H. injection H as <- _.
    simpl in H2. discriminate.
  - rewrite append_empty, !append_cons in H. injection H as -> _.
    simpl in H1. discriminate.
  - rewrite !append_cons in H. injection H as -> H.
    simpl in H1, H2. apply andb_prop in H1, H2.
    destruct (IH a2) as [-> ->]; tauto.
Qed.

(** X9: the URL of a slot query determines the organizer and the event
    type it is for, provided the organizer slugs hold no slash; the slugs
    are put into the path as they are. *)
Theorem getAvailableSlots_url_inj (o1 e1 o2 e2 : string)
  (p1 p2 : list (string * value)) :
  no_slash o1 = true -> no_slash o2 = true ->
  req_url (publicApi.getAvailableSlots_request o1 e1 p1)
  = req_url (publicApi.getAvailableSlots_request o2 e2 p2) ->
  o1 = o2 /\ e1 = e2.
Proof.
  intros H1 H2. simpl. intros H. apply append_inj_l in H.
  apply slash_split in H; [|assumption..]. destruct H as [-> H].
  split; [reflexivity|]. now apply append_inj_r in H.
Qed.

Lemma getAvailableSlots_url_inj_witness : "ada" = "ada" /\ "intro" = "intro".
Proof.
  apply (getAvailableSlots_url_inj "ada" "intro" "ada" "intro"
           [ ("start_date", VStr "2024-05-01"); ("end_date", VStr "2024-05-02");
             ("timezone", VStr "UTC") ]
           [ ("start_date", VStr "2024-06-01"); ("end_date", VStr "2024-06-02");
             ("timezone", VStr "UTC"); ("attendee_count", VNum (of_Z 2)) ]);
    reflexivity.
Defined.

(** With a slash in a slug two different queries share their URL. *)
Example getAvailableSlots_url_clash :
  let p := [ ("start_date", VStr "2024-05-01"); ("end_date", VStr "2024-05-02");
             ("timezone", VStr "UTC") ] in
  req_url (publicApi.getAvailableSlots_request "ada/team" "intro" p)
  = req_url (publicApi.getAvailableSlots_request "ada" "team/intro" p).
Proof. reflexivity. Qed.

(** X10: the interactions of all contacts are requested exactly when the
    contact id is missing or empty; a non-empty id always yields the URL of
    that contact, which is never the URL of the collection. *)
Theorem getInteractions_collection (contactId : option string) :
  req_url (getInteractions_request contactId) = "/contacts/interactions/"
  <-> contactId = None \/ contactId = Some "".
Proof.
  split.
  - destruct contactId as [[|c id]|]; simpl; auto.
    intros H. exfalso. apply (append_inj_l "/contacts/") in H.
    apply (f_equal String.length) in H. rewrite append_length in H.
    simpl in H. lia.
  - intros [->| ->]; reflexivity.
Qed.

End ApiMoreFacts.

(** ** Own properties: enumeration and spread *)

Module ObjectsFacts.
Import Objects.

Lemma own_entries_from seen fields k :
  own (entries_from seen fields) k =
  if existsb (String.eqb k) seen then None else own fields k.
Proof.
  revert seen. induction fields as [|[k' v] rest IH]; intros seen; simpl.
  - now destruct (existsb _ seen).
  - destruct (existsb (String.eqb k') seen) eqn:Hseen.
    + rewrite IH. destruct (existsb (String.eqb k) seen) eqn:Hk; [reflexivity|].
      destruct (String.eqb_spec k' k) as [->|]; [congruence|reflexivity].
    + simpl. destruct (String.eqb_spec k' k) as [->|Hne].
      * now rewrite Hseen.
      * rewrite IH. simpl. rewrite (proj2 (String.eqb_neq k k')) by congruence.
        reflexivity.
Qed.

Lemma entries_from_keys seen fields :
  NoDup (keys (entries_from seen fields)) /\
  forall k, In k (keys (entries_from seen fields)) ->
            existsb (String.eqb k) seen = false.
Proof.
  revert seen. induction fields as [|[k' v] rest IH]; intros seen; simpl.
  - split; [constructor|intros k []].
  - destruct (existsb (String.eqb k') seen) eqn:Hseen; [apply IH|].
    destruct (IH (k' :: seen)) as [Hnd Hout]. simpl. split.
    + apply NoDup_cons_2; [|assumption]. intros Hin. apply list_elem_of_In in Hin.
      specialize (Hout _ Hin). simpl in Hout. now rewrite String.eqb_refl in Hout.
    + intros k [<-|Hin]; [assumption|]. specialize (Hout _ Hin). simpl in Hout.
      now apply orb_false_elim in Hout.
Qed.

Lemma index_key_inj i j : index_key i = index_key j -> i = j.
Proof.
  unfold index_key. intros H. apply DecimalNat.Unsigned.to_uint_inj.
  pose proof (NilEmpty.usu (Nat.to_uint i)) as Hi.
  pose proof (NilEmpty.usu (Nat.to_uint j)) as Hj.
  rewrite H in Hi. congruence.
Qed.

Lemma indexed_keys {A : Type} i (l : list A) :
  NoDup (keys (indexed i l)) /\
  forall k, In k (keys (indexed i l)) -> exists j, (i <= j)%nat /\ k = index_key j.
Proof.
  revert i. induction l as [|x rest IH]; intros i; simpl.
  - split; [constructor|intros k []].
  - destruct (IH (S i)) as [Hnd Hk]. split.
    + apply NoDup_cons_2; [|assumption]. intros Hin. apply list_elem_of_In in Hin.
      destruct (Hk _ Hin) as (j & Hj & Heq). apply index_key_inj in Heq. lia.
    + intros k [<-|Hin]; [exists i; auto|].
      destruct (Hk _ Hin) as (j & Hj & ->). exists j. split; [lia|reflexivity].
Qed.

Lemma own_entries_NoDup v : NoDup (keys (own_entries v)).
Proof.
  destruct v; simpl; try constructor.
  - apply indexed_keys.
  - apply indexed_keys.
  - apply entries_from_keys.
Qed.

(** An index is a numeral: it begins with a digit. *)
Lemma index_key_digit i :
  exists c rest, index_key i = String c rest /\
                 (48 <=? nat_of_ascii c)%nat && (nat_of_ascii c <=? 57)%nat = true.
Proof.
  unfold index_key.
  assert (Hnz : Nat.to_uint i <> Decimal.Nil).
  { intros H. pose proof (DecimalNat.Unsigned.of_to i) as Hi.
    destruct i; [discriminate H|].
    pose proof (DecimalNat.Unsigned.to_uint_inj (S i) 0) as Hinj.
    rewrite H in Hi. simpl in Hi. discriminate Hi. }
  destruct (Nat.to_uint i); [contradiction|..]; simpl; eexists _, _; split;
    reflexivity.
Qed.

Lemma own_indexed_word {A : Type} i (l : list A) (k : string) c rest :
  k = String c rest ->
  (48 <=? nat_of_ascii c)%nat && (nat_of_ascii c <=? 57)%nat = false ->
  own (indexed i l) k = None.
Proof.
  intros -> Hc. revert i. induction l as [|x l IH]; intros i; [reflexivity|].
  simpl. destruct (index_key_digit i) as (d & r & Hi & Hd). rewrite Hi.
  destruct (String.eqb_spec (String d r) (String c rest)) as [[= -> ->]|_];
    [congruence|apply IH].
Qed.

(** Writing the entries of a list with distinct keys into a map, those
    that [f] lets through: afterwards a key holds what its entry gives,
    and what the map held before when it has no entry or [f] drops it. *)
Lemma foldl_write_lookup (f : value -> option value)
  (l : list (string * value)) (acc : gmap string value) (k : string) :
  NoDup (keys l) ->
  foldl (fun m kv => match f (snd kv) with
                     | Some x => <[fst kv := x]> m
                     | None => m
                     end) acc l !! k =
  match own l k ≫= f with
  | Some x => Some x
  | None => acc !! k
  end.
Proof.
  revert acc. induction l as [|[k' v] rest IH]; intros acc Hnd; [reflexivity|].
  simpl in Hnd. apply NoDup_cons in Hnd. destruct Hnd as [Hk' Hnd].
  cbn [foldl fst snd own]. rewrite IH by assumption.
  destruct (String.eqb_spec k' k) as [->|Hne].
  - assert (Hrest : own rest k = None).
    { destruct (own rest k) eqn:Ho; [|reflexivity]. exfalso. apply Hk'.
      apply list_elem_of_In, in_map_iff. exists (k, v0). split; [reflexivity|].
      clear -Ho. induction rest as [|[k1 v1] rest IH]; simpl in *; [discriminate|].
      destruct (String.eqb_spec k1 k) as [->|]; [injection Ho as ->; now left|].
      right. now apply IH. }
    rewrite Hrest. simpl. destruct (f v); [apply lookup_insert_eq|reflexivity].
  - destruct (own rest k ≫= f); [reflexivity|].
    destruct (f v); [now apply lookup_insert_ne|reflexivity].
Qed.

Lemma spread_lookup target source k :
  spread target source !! k =
  match own (own_entries source) k with
  | Some x => Some x
  | None => target !! k
  end.
Proof.
  unfold spread.
  change (fun (m : gmap string value) (kv : string * value) => <[fst kv := snd kv]> m)
    with (fun (m : gmap string value) (kv : string * value) =>
            match Some (snd kv) with
            | Some x => <[fst kv := x]> m
            | None => m
            end).
  rewrite (foldl_write_lookup Some) by apply own_entries_NoDup.
  now destruct (own (own_entries source) k).
Qed.

End ObjectsFacts.

(** ** The request of the public slot query *)

Module SlotRequestFacts.
Import Api Types Objects ApiParams.





End SlotRequestFacts.

Module BookingAndErrorsFacts.
Import Api ApiMore Objects ObjectsFacts.

(** The request interceptor adds the Authorization header for a non-empty
    token and leaves every other header as it is; with no token, or an
    empty one, the headers are unchanged. *)
Lemma request_interceptor_headers token headers :
  (forall t, token = Some t -> t <> "" ->
     request_interceptor token headers !! "Authorization"
     = Some ("Token " ++ t)%string) /\
  (token = None \/ token = Some "" -> request_interceptor token headers = headers) /\
  (forall k, k <> "Authorization" ->
     request_interceptor token headers !! k = headers !! k).
Proof.
  unfold request_interceptor. repeat split.
  - intros t -> Ht. simpl. apply String.eqb_neq in Ht. rewrite Ht. simpl.
    apply lookup_insert_eq.
  - intros [->| ->]; reflexivity.
  - intros k Hk. destruct token as [t|]; [|reflexivity].
    destruct (truthy (VStr t)); [|reflexivity].
    apply lookup_insert_ne. congruence.
Qed.

(** X11: in the body of manageBooking an action member of the data
    replaces the action given as argument; without one (and for data that
    is no object) the body carries the argument; every other member of the
    data is sent as it is. *)
Theorem manageBooking_body_action (action : string) (data : value) :
  (forall fields, data = VObj fields ->
     manageBooking_body action data !! "action"
     = Some (default (VStr action) (own fields "action"))) /\
  ((forall fields, data <> VObj fields) ->
     manageBooking_body action data !! "action" = Some (VStr action)) /\
  (forall fields k, data = VObj fields -> k <> "action" ->
     manageBooking_body action data !! k = own fields k).
Proof.
  unfold manageBooking_body. repeat split.
  - intros fields ->. rewrite spread_lookup. simpl. rewrite own_entries_from.
    simpl. destruct (own fields "action"); [reflexivity|].
    simpl. apply lookup_singleton_eq.
  - intros Hno. rewrite spread_lookup.
    assert (Hnone : own (own_entries data) "action" = None).
    { destruct data as [| |?|?|s|items|fields|?]; try reflexivity.
      - simpl. now apply (own_indexed_word 0 (chars s) "action" "a" "ction").
      - simpl. now apply (own_indexed_word 0 items "action" "a" "ction").
      - now destruct (Hno fields). }
    rewrite Hnone. apply lookup_singleton_eq.
  - intros fields k -> Hk. rewrite spread_lookup. simpl. rewrite own_entries_from.
    simpl. destruct (own fields k); [reflexivity|].
    apply lookup_singleton_ne. congruence.
Qed.

Lemma manageBooking_body_action_witness :
  manageBooking_body "cancel"
    (VObj [("reason", VStr "ill"); ("action", VStr "reschedule")]) !! "action"
  = Some (default (VStr "cancel")
            (own [("reason", VStr "ill"); ("action", VStr "reschedule")] "action")).
Proof.
  apply (proj1 (manageBooking_body_action "cancel"
           (VObj [("reason", VStr "ill"); ("action", VStr "reschedule")]))).
  reflexivity.
Defined.

Lemma number_eq_401_not_ge_500 status :
  number_eq status (of_Z 401) = true -> number_ge status (of_Z 500) = false.
Proof.
  destruct status as [|p|q]; simpl; try discriminate.
  intros H. apply Qeq_bool_iff in H. apply negb_false_iff, negb_true_iff.
  destruct (Qle_bool (inject_Z 500) q) eqn:Hle; [|reflexivity].
  apply Qle_bool_iff in Hle. rewrite H in Hle. now compute in Hle.
Qed.

(** X12: the response interceptor logs the user out, and sends the
    browser to /login, exactly for status 401; it reports a server error
    exactly for a status of at least 500; for any other status, and for an
    error without response, it does nothing; and it always passes the same
    error on as a rejection. *)
Theorem response_error_interceptor_cases (error : axios_error) :
  let effects := fst (response_error_interceptor error) in
  snd (response_error_interceptor error) = Rejected error /\
  (In logout effects <->
   exists status, error_status error = Some status /\
                  number_eq status (of_Z 401) = true) /\
  (In logout effects <-> In (set_location "/login") effects) /\
  (In (toast_error "Server error. Please try again later.") effects <->
   exists status, error_status error = Some status /\
                  number_ge status (of_Z 500) = true) /\
  ((forall status, error_status error = Some status ->
      number_eq status (of_Z 401) = false /\
      number_ge status (of_Z 500) = false) ->
   effects = []).
Proof.
  unfold response_error_interceptor. cbn [fst snd].
  split; [reflexivity|].
  destruct (error_status error) as [status|].
  - destruct (number_eq status (of_Z 401)) eqn:H401;
      [pose proof (number_eq_401_not_ge_500 _ H401) as H500
      |destruct (number_ge status (of_Z 500)) eqn:H500];
      (split; [|split; [|split]]).
    + split; [eauto|simpl; tauto].
    + simpl. tauto.
    + split; [intros [H|[H|[H|[]]]]; discriminate H|].
      intros (s & [= <-] & Hs). congruence.
    + intros H. destruct (H status eq_refl). congruence.
    + split; [intros [H|[]]; discriminate H|].
      intros (s & [= <-] & Hs). congruence.
    + split; (intros [H|[]]; discriminate H).
    + split; [eauto|simpl; tauto].
    + intros H. destruct (H status eq_refl). congruence.
    + split; [intros []|]. intros (s & [= <-] & Hs). congruence.
    + split; intros [].
    + split; [intros []|]. intros (s & [= <-] & Hs). congruence.
    + reflexivity.
  - split; [|split; [|split]].
    + split; [intros []|]. intros (s & Hs & _). discriminate.
    + split; intros [].
    + split; [intros []|]. intros (s & Hs & _). discriminate.
    + reflexivity.
Qed.

Lemma response_error_interceptor_cases_witness :
  fst (response_error_interceptor (mkError (Some (of_Z 404)) VNull)) = [].
Proof.
  refine (proj2 (proj2 (proj2 (proj2
            (response_error_interceptor_cases (mkError (Some (of_Z 404)) VNull))))) _).
  intros status [= <-]. split; reflexivity.
Defined.

End BookingAndErrorsFacts.

(** ** The registration page: server errors and what validation ignores *)

Module RegisterMoreFacts.
Import RegisterPage RegisterErrors Objects ObjectsFacts.



Example onError_first_message_only :
  snd <$> onError
    (VObj [("response",
            VObj [("data",
                   VObj [("error", VStr "");
                         ("errors",
                          VObj [("email", VArr [VStr "Taken"; VStr "Invalid"]);
                                ("username", VArr []);
                                ("password", VStr "Too short")])])])])
  = Some {["email" := VStr "Taken"]}.
Proof. reflexivity. Qed.

(** X14: on the values the form collects, validation does not look into
    the password beyond its length and its equality with the confirmation,
    nor into the text of last_name and username: an accepted form stays
    accepted when the password and its confirmation are replaced by any
    string of at least 8 characters, and each of the two names by any
    string or by nothing. *)
Theorem register_ignores_password_content (emailRegex : string -> bool)
  (f : FormValues) (p : string) (ln un : option string) :
  success (schema emailRegex) (form_object f) = true ->
  (8 <= String.length p)%nat ->
  success (schema emailRegex)
    (form_object (mkForm (first_name f) ln un (email f) p p (terms_accepted f)))
  = true.
Proof.
  rewrite !(ZodFacts.success_no_issues _ _
              (RegisterPageFacts.schema_well_behaved emailRegex)).
  rewrite !RegisterPageFacts.register_issues. simpl.
  intros H Hp. rewrite String.eqb_refl.
  rewrite (proj2 (Nat.ltb_ge (String.length p) 8) Hp).
  destruct (String.length (first_name f) <? 1)%nat; [discriminate H|].
  destruct (emailRegex (email f)); [|discriminate H].
  destruct (String.length (password f) <? 8)%nat; [discriminate H|].
  destruct (terms_accepted f); [|discriminate H].
  reflexivity.
Qed.

Lemma register_ignores_password_content_witness :
  success (schema (fun s => String.eqb s "ada@example.com"))
    (form_object (mkForm "Ada" (Some "L") None "ada@example.com"
                    "aaaaaaaa" "aaaaaaaa" true))
  = true.
Proof.
  apply (register_ignores_password_content
           (fun s => String.eqb s "ada@example.com")
           (mkForm "Ada" None None "ada@example.com" "Tr0ub4dor&3" "Tr0ub4dor&3" true)
           "aaaaaaaa" (Some "L") None).
  - reflexivity.
  - simpl. lia.
Defined.

End RegisterMoreFacts.
